(** * Cell, the Sphere packaging compiler: a shallow embedding

    The development follows [src/cell/fs.c], [src/cell/tool.c] and
    [src/cell/build.c].  Strings are [string], the real file system is a
    finite map from real path names to nodes, the diagnostics collaborator
    (visor) is a record of message lists, and every C function that
    mutates the world becomes a function that takes the world and returns
    the new one together with its result. *)

From Stdlib Require Import ZArith Ascii String.
From stdpp Require Import gmap strings list pretty.

Local Open Scope string_scope.
Set Warnings "-register-all".

(** ** Path algebra (path.c) *)

Module Path.

(** Modelled from the spec: [path.c] is not part of the sources at hand.
    A path is an ordered sequence of string hops plus a trailing-separator
    flag that tells a directory from a file. *)
Record path_t := mk_path { hops : list string; is_dir : bool }.

(** Modelled from the spec: hops are the pieces between ['/'] separators,
    so a hop never contains one. *)
Fixpoint split_hops (s : string) : list string :=
  match s with
  | EmptyString => [EmptyString]
  | String c r =>
      if Ascii.eqb c "/"%char then EmptyString :: split_hops r
      else match split_hops r with
           | h :: t => String c h :: t
           | [] => [String c EmptyString]
           end
  end.

(** Modelled from the spec: parsing keeps every hop as written; a trailing
    separator sets the directory flag. *)
Definition path_new (s : string) : path_t :=
  let parts := split_hops s in
  if String.eqb (List.last parts "") ""
  then mk_path (removelast parts) (1 <? length parts)%nat
  else mk_path parts false.

(** Modelled from the spec: the same for a name known to be a directory. *)
Definition path_new_dir (s : string) : path_t :=
  mk_path (hops (path_new s)) true.

(** Modelled from the spec: the text of a path, hops joined by the
    separator, with a trailing separator on a directory. *)
Definition path_cstr (p : path_t) : string :=
  if is_dir p
  then String.concat "" (map (fun h => h +:+ "/") (hops p))
  else String.concat "/" (hops p).

(** Modelled from the spec: the number of hops. *)
Definition path_num_hops (p : path_t) : nat := length (hops p).

(** Modelled from the spec: the hop at an index. *)
Definition path_hop (p : path_t) (i : nat) : string :=
  nth i (hops p) "".

(** Modelled from the spec: whether the hop at an index is the given one. *)
Definition path_hop_is (p : path_t) (i : nat) (name : string) : bool :=
  match hops p !! i with
  | Some h => String.eqb h name
  | None => false
  end.

(** Modelled from the spec: the rootedness test of step 2 of resolution,
    "platform-absolute": the text starts with a separator (empty first
    hop) or with a drive hop such as [C:]. *)
Definition path_is_rooted (p : path_t) : bool :=
  match hops p with
  | h :: _ =>
      String.eqb h "" ||
      match String.get 1 h with
      | Some c => Ascii.eqb c ":"%char
      | None => false
      end
  | [] => false
  end.

(** Modelled from the spec: "insert/remove at index". *)
Definition path_remove_hop (p : path_t) (i : nat) : path_t :=
  mk_path (delete i (hops p)) (is_dir p).

(** Modelled from the spec: "insert/remove at index". *)
Definition path_insert_hop (p : path_t) (i : nat) (name : string) : path_t :=
  mk_path (take i (hops p) ++ name :: drop i (hops p)) (is_dir p).

(** Modelled from the spec: "rebase (prepend another path)". *)
Definition path_rebase (p root : path_t) : path_t :=
  mk_path (hops root ++ hops p) (is_dir p).

(** Modelled from the spec: a file path gives up its file name, leaving
    the directory it lies in; a directory path stays. *)
Definition path_strip (p : path_t) : path_t :=
  if is_dir p then p else mk_path (removelast (hops p)) true.

(** Modelled from the spec: sets the trailing-separator flag. *)
Definition path_to_dir (p : path_t) : path_t := mk_path (hops p) true.

(** Modelled from the spec: the flag tells a file from a directory. *)
Definition path_is_file (p : path_t) : bool := negb (is_dir p).

(** Modelled from the spec: the last hop of a file path. *)
Definition path_filename (p : path_t) : string :=
  if is_dir p then "" else List.last (hops p) "".


(** Modelled from the spec: "collapse ([..] and [.] folding with hard stop
    at root)": [.] hops vanish, [..] cancels the hop before it, and a
    [..] with nothing before it to cancel is left where it is. *)
Fixpoint collapse_hops (done todo : list string) : list string :=
  match todo with
  | [] => rev done
  | h :: t =>
      if String.eqb h "." then collapse_hops done t
      else if String.eqb h ".." then
        match done with
        | d :: done' =>
            if String.eqb d ".." then collapse_hops (h :: done) t
            else collapse_hops done' t
        | [] => collapse_hops [h] t
        end
      else collapse_hops (h :: done) t
  end.

(** Modelled from the spec: [path_collapse(path, true)]. *)
Definition path_collapse (p : path_t) : path_t :=
  mk_path (collapse_hops [] (hops p)) (is_dir p).




(** Modelled from the spec: "relativize (subtract common prefix)": the
    hops shared with the base go, and each hop left of the base becomes a
    [..]. *)
Fixpoint relativize_hops (p base : list string) : list string :=
  match p, base with
  | h :: p', b :: base' =>
      if String.eqb h b then relativize_hops p' base'
      else map (fun _ => "..") base ++ p
  | _, _ => map (fun _ => "..") base ++ p
  end.

(** Modelled from the spec: "relativize (subtract common prefix)". *)
Definition path_relativize (p base : path_t) : path_t :=
  mk_path (relativize_hops (hops p) (hops base)) (is_dir p).

End Path.
Export Path.

(** ** SphereFS (fs.c) *)

(** [struct fs]: the four real roots; [user_path] may be [NULL]. *)
Record fs_t := mk_fs {
  root_path : path_t;
  game_path : path_t;
  system_path : path_t;
  user_path : option path_t
}.

(** [resolve()], up to the final [path_cstr]. *)
Definition resolve_path (fs : fs_t) (filename : string) : option path_t :=
  let path := path_new filename in
  if path_is_rooted path then None
  else if (path_num_hops path =? 0)%nat then
    Some (path_rebase path (root_path fs))
  else if path_hop_is path 0 "$" then
    Some (path_rebase (path_remove_hop path 0) (root_path fs))
  else if path_hop_is path 0 "@" then
    Some (path_rebase (path_remove_hop path 0) (game_path fs))
  else if path_hop_is path 0 "#" then
    Some (path_rebase (path_remove_hop path 0) (system_path fs))
  else if path_hop_is path 0 "~" then
    match user_path fs with
    | None => None
    | Some u => Some (path_rebase (path_remove_hop path 0) u)
    end
  else Some (path_rebase path (root_path fs)).

Definition resolve (fs : fs_t) (filename : string) : option string :=
  path_cstr <$> resolve_path fs filename.

(** The test [strpbrk(prefix, "@#~$") && strlen(prefix) == 1]. *)
Definition is_prefix_hop (prefix : string) : bool :=
  String.eqb prefix "@" || String.eqb prefix "#" ||
  String.eqb prefix "~" || String.eqb prefix "$".

(** [fs_full_path] once the base directory, if any, is itself in full
    form. *)
Definition fs_full_path_from (base_path : option path_t) (filename : string)
  : path_t :=
  let path := path_new filename in
  if path_is_rooted path then path
  else
    let prefix := if (0 <? path_num_hops path)%nat then path_hop path 0 else "" in
    let '(path, prefix) :=
      if negb (is_prefix_hop prefix) then
        let path := match base_path with
                    | Some b => path_rebase path b
                    | None => path_insert_hop path 0 "$"
                    end in
        (path, path_hop path 0)
      else (path, prefix) in
    let path := path_remove_hop path 0 in
    let path := path_collapse path in
    path_insert_hop path 0 prefix.

Definition fs_full_path (filename : string) (base_dir_name : option string)
  : path_t :=
  fs_full_path_from
    (option_map (fun b => path_to_dir (fs_full_path_from None b)) base_dir_name)
    filename.

Definition fs_relative_path (filename base_dir_name : string) : path_t :=
  let path := fs_full_path filename None in
  if path_is_rooted path then path
  else
    let base_path := path_to_dir (fs_full_path base_dir_name None) in
    if path_hop_is path 0 (path_hop base_path 0)
    then path_relativize path base_path
    else path.

(** ** The world: real files, the clock, the visor and the script heap *)

(** A node of the real file system, with its modification time. *)
Inductive node :=
  | File (content : string) (mtime : Z)
  | Dir (mtime : Z).

Definition node_mtime (n : node) : Z :=
  match n with File _ t => t | Dir t => t end.

Definition is_regular (n : node) : bool :=
  match n with File _ _ => true | Dir _ => false end.

(** Modelled from the spec: [visor.c] is not part of the sources at hand.
    The visor is a stack of nested operation scopes; [error] and [warn]
    emit a message and bump their counter (the counters are the lengths of
    the message lists); it also accumulates the artifact list. *)
Record visor_t := mk_visor {
  v_ops : list string;
  v_errors : list string;
  v_warns : list string;
  v_prints : list string;
  v_filenames : list string
}.

(** Script values.  [JRef] is the address of a mutable heap object, which
    is what pointer equality of two objects compares. *)
Inductive jsval :=
  | JUndefined
  | JNull
  | JBool (b : bool)
  | JNum (z : Z)
  | JStr (s : string)
  | JArr (items : list jsval)
  | JObj (props : list (string * jsval))
  | JRef (addr : nat).

Definition duk_is_string (v : jsval) : bool :=
  match v with JStr _ => true | _ => false end.


Fixpoint assoc_get (props : list (string * jsval)) (key : string) : jsval :=
  match props with
  | [] => JUndefined
  | (k, v) :: rest => if String.eqb k key then v else assoc_get rest key
  end.

Fixpoint assoc_put (props : list (string * jsval)) (key : string) (v : jsval)
  : list (string * jsval) :=
  match props with
  | [] => [(key, v)]
  | (k, v0) :: rest =>
      if String.eqb k key then (k, v) :: rest
      else (k, v0) :: assoc_put rest key v
  end.


(** A CommonJS module object: [module.exports], [module.filename],
    [module.id], [module.loaded]; [module.require] is the closure that
    carries [id]. *)
Record module_obj := mk_module {
  m_exports : jsval;
  m_filename : string;
  m_id : string;
  m_loaded : bool
}.

(** The part of the script heap the build driver looks at: the stash
    slots [descriptor], [moduleCache] and [TypeScript], and the module
    objects by address. *)
Record js_heap := mk_heap {
  descriptor : list (string * jsval);
  moduleCache : gmap string nat;
  objects : gmap nat module_obj;
  has_TypeScript : bool;
  next_addr : nat
}.

(** Everything a C call or a script can change: the files (keyed by the
    real path name handed to the C library), the current time, the visor
    and the script heap. *)
Record world := mk_world {
  files : gmap string node;
  clock : Z;
  visor : visor_t;
  js : js_heap
}.

Definition set_files (w : world) (f : gmap string node) : world :=
  mk_world f (clock w) (visor w) (js w).

Definition set_visor (w : world) (v : visor_t) : world :=
  mk_world (files w) (clock w) v (js w).

Definition set_js (w : world) (h : js_heap) : world :=
  mk_world (files w) (clock w) (visor w) h.

Definition visor_begin_op (w : world) (msg : string) : world :=
  let v := visor w in
  set_visor w (mk_visor (msg :: v_ops v) (v_errors v) (v_warns v)
                        (v_prints v) (v_filenames v)).

Definition visor_end_op (w : world) : world :=
  let v := visor w in
  set_visor w (mk_visor (tail (v_ops v)) (v_errors v) (v_warns v)
                        (v_prints v) (v_filenames v)).

Definition visor_error (w : world) (msg : string) : world :=
  let v := visor w in
  set_visor w (mk_visor (v_ops v) (v_errors v ++ [msg]) (v_warns v)
                        (v_prints v) (v_filenames v)).

Definition visor_warn (w : world) (msg : string) : world :=
  let v := visor w in
  set_visor w (mk_visor (v_ops v) (v_errors v) (v_warns v ++ [msg])
                        (v_prints v) (v_filenames v)).

Definition visor_print (w : world) (msg : string) : world :=
  let v := visor w in
  set_visor w (mk_visor (v_ops v) (v_errors v) (v_warns v)
                        (v_prints v ++ [msg]) (v_filenames v)).

Definition visor_num_errors (w : world) : nat := length (v_errors (visor w)).
Definition visor_num_warns (w : world) : nat := length (v_warns (visor w)).
Definition visor_filenames (w : world) : list string := v_filenames (visor w).

(** *** The C library calls behind fs.c, on the file map *)

Definition c_unlink (w : world) (name : string) : Z * world :=
  match files w !! name with
  | Some (File _ _) => (0, set_files w (delete name (files w)))
  | _ => (-1, w)
  end%Z.

(** [utime(name, NULL)]: the modification time becomes the current time. *)
Definition c_utime_now (w : world) (name : string) : Z * world :=
  match files w !! name with
  | Some (File c _) => (0, set_files w (<[name := File c (clock w)]> (files w)))
  | Some (Dir _) => (0, set_files w (<[name := Dir (clock w)]> (files w)))
  | None => (-1, w)
  end%Z.

(** Modelled from the spec: "write(path, bytes)", the [fspew] of the
    absent [utility.c], which is also what [fopen] does in a writing mode:
    the file is created or truncated unless the name is a directory. *)
Definition c_write (w : world) (name content : string) : bool * world :=
  match files w !! name with
  | Some (Dir _) => (false, w)
  | _ => (true, set_files w (<[name := File content (clock w)]> (files w)))
  end.

(** Modelled from the spec: "mkdir", the [path_mkdir] of the absent
    [path.c]: the directory of the path (the path less its file name)
    exists afterwards unless a file has its name. *)
Definition path_mkdir (w : world) (p : path_t) : bool * world :=
  let name := path_cstr (path_strip p) in
  match files w !! name with
  | Some (Dir _) => (true, w)
  | Some (File _ _) => (false, w)
  | None => (true, set_files w (<[name := Dir (clock w)]> (files w)))
  end.

(** Modelled from the spec: "copy(src,dst,overwrite)", the
    [tinydir_copy(src, dst, skip_if_exists)] behind it: a byte-for-byte
    copy of a regular file, refused when the destination is a directory
    or exists and is to be skipped. *)
Definition tinydir_copy (w : world) (src dst : string) (skip_if_exists : bool)
  : Z * world :=
  match files w !! src with
  | Some (File c _) =>
      match files w !! dst with
      | Some (Dir _) => (-1, w)
      | Some (File _ _) =>
          if skip_if_exists then (-1, w)
          else (0, set_files w (<[dst := File c (clock w)]> (files w)))
      | None => (0, set_files w (<[dst := File c (clock w)]> (files w)))
      end
  | _ => (-1, w)
  end%Z.

(** *** fs.c *)

Definition fs_stat (fs : fs_t) (w : world) (filename : string) : option node :=
  match resolve fs filename with
  | None => None
  | Some resolved_name => files w !! resolved_name
  end.

Definition fs_fexist (fs : fs_t) (w : world) (filename : string) : bool :=
  match fs_stat fs w filename with
  | Some sb => is_regular sb
  | None => false
  end.

Definition fs_unlink (fs : fs_t) (w : world) (filename : string) : Z * world :=
  match resolve fs filename with
  | None => (-1, w)%Z
  | Some resolved_name => c_unlink w resolved_name
  end.

(** [fs_utime(fs, filename, NULL)]. *)
Definition fs_utime (fs : fs_t) (w : world) (filename : string) : Z * world :=
  match resolve fs filename with
  | None => (-1, w)%Z
  | Some resolved_name => c_utime_now w resolved_name
  end.

Definition fs_mkdir (fs : fs_t) (w : world) (dirname : string) : Z * world :=
  match resolve fs dirname with
  | None => (-1, w)%Z
  | Some resolved_name =>
      let path := path_new_dir resolved_name in
      let '(ok, w') := path_mkdir w path in
      ((if ok then 0 else -1)%Z, w')
  end.

Definition fs_fslurp (fs : fs_t) (w : world) (filename : string) : option string :=
  match resolve fs filename with
  | None => None
  | Some resolved_name =>
      match files w !! resolved_name with
      | Some (File c _) => Some c
      | _ => None
      end
  end.

Definition fs_fspew (fs : fs_t) (w : world) (filename data : string)
  : bool * world :=
  match resolve fs filename with
  | None => (false, w)
  | Some resolved_name => c_write w resolved_name data
  end.

Definition fs_fcopy (fs : fs_t) (w : world) (destination source : string)
    (overwrite : bool) : Z * world :=
  match resolve fs destination, resolve fs source with
  | Some resolved_dest, Some resolved_src =>
      let dest_path := path_new resolved_dest in
      let w := snd (path_mkdir w dest_path) in
      tinydir_copy w resolved_src resolved_dest (negb overwrite)
  | _, _ => (-1, w)%Z
  end.

(** ** Errors of the script engine *)

Inductive err_kind :=
  | DUK_ERR_ERROR
  | DUK_ERR_RANGE_ERROR
  | DUK_ERR_REFERENCE_ERROR
  | DUK_ERR_SYNTAX_ERROR
  | DUK_ERR_TYPE_ERROR.

(** A thrown value: its kind when it is an [Error] object, its string
    form, and its [fileName] and [lineNumber] properties. *)
Record js_error := mk_error {
  err_kind_of : option err_kind;
  err_text : string;
  err_fileName : string;
  err_lineNumber : Z
}.

Definition kind_name (k : err_kind) : string :=
  match k with
  | DUK_ERR_ERROR => "Error"
  | DUK_ERR_RANGE_ERROR => "RangeError"
  | DUK_ERR_REFERENCE_ERROR => "ReferenceError"
  | DUK_ERR_SYNTAX_ERROR => "SyntaxError"
  | DUK_ERR_TYPE_ERROR => "TypeError"
  end.

(** [duk_error_blame]: throws an error of the given kind and message (the
    file and line of the blamed script frame are left out). *)
Definition duk_error_blame (k : err_kind) (msg : string) : js_error :=
  mk_error (Some k) (kind_name k +:+ ": " +:+ msg) "" 0.


(** A guarded call either gives a value or leaves the thrown error. *)
Inductive result (A : Type) :=
  | Ok (a : A)
  | Err (e : js_error).
Arguments Ok {A} a.
Arguments Err {A} e.

(** What a protected call into a script function comes back with. *)
Inductive js_outcome :=
  | Returned
  | Threw (e : js_error).

(** The script engine (Duktape) and the transpiler are collaborators: what
    the driver needs of them is an interface. Compiled module code is a
    function of the module object's address, [__filename] and
    [__dirname]; it may change the whole world. *)
Class Engine := {
  duk_json_pdecode : string -> result jsval;
  duk_json_encode : jsval -> string;
  duk_pcompile :
    string -> string -> result (nat -> string -> string -> world -> js_outcome * world);
  ts_transpileModule : string -> bool -> result string
}.

(** ** Tools (tool.c) *)

(** [struct tool]: the verb and the script callback.  The callback gets
    the output path and the input paths and may change the world (through
    [FS.*], [error()], ...). *)
Record tool_t := mk_tool {
  verb : string;
  callback : string -> list string -> world -> js_outcome * world
}.

(** The conversion [%d] of [printf]. *)
Definition fmt_d (z : Z) : string := pretty z.

(** The world in which [tool_run] invokes the callback: the operation
    scope is open and the target directory has been made. *)
Definition tool_run_entry (t : tool_t) (w : world) (fs : fs_t)
    (out_path : path_t) : world :=
  let w := visor_begin_op w (verb t +:+ " '" +:+ path_cstr out_path +:+ "'") in
  let dir_path := path_strip out_path in
  snd (fs_mkdir fs w (path_cstr dir_path)).

Definition last_mtime_of (fs : fs_t) (w : world) (out_path : path_t) : Z :=
  match fs_stat fs w (path_cstr out_path) with
  | Some stats => node_mtime stats
  | None => 0%Z
  end.

(** The part of [tool_run] from the return of [duk_pcall] up to the test
    of [result_ok]: error accounting. *)
Definition tool_run_account (num_errors : nat) (res : js_outcome) (w : world)
  : bool * world :=
  let '(result_ok, w) :=
    match res with
    | Returned => (true, w)
    | Threw e =>
        let w := visor_error w (err_text e) in
        let w := visor_print w
          ("@ [" +:+ err_fileName e +:+ ":" +:+ fmt_d (err_lineNumber e) +:+ "]") in
        (false, w)
    end in
  (if (num_errors <? visor_num_errors w)%nat then false else result_ok, w).

(** The rest of [tool_run]: the check that the tool did something. *)
Definition tool_run_verify (fs : fs_t) (out_path : path_t) (last_mtime : Z)
    (result_ok : bool) (w : world) : bool * world :=
  let '(result_ok, w) :=
    if result_ok then
      match fs_stat fs w (path_cstr out_path) with
      | None => (false, visor_error w "target file not found after build")
      | Some stats =>
          if (node_mtime stats =? last_mtime)%Z
          then (true, visor_warn w "target file unchanged after build")
          else (true, w)
      end
    else (false, snd (fs_unlink fs w (path_cstr out_path))) in
  (result_ok, visor_end_op w).

Definition tool_run (tool : option tool_t) (w : world) (fs : fs_t)
    (out_path : path_t) (in_paths : list path_t) : bool * world :=
  match tool with
  | None => (true, w)
  | Some t =>
      let w := tool_run_entry t w fs out_path in
      let last_mtime := last_mtime_of fs w out_path in
      let num_errors := visor_num_errors w in
      let '(res, w) :=
        callback t (path_cstr out_path) (map path_cstr in_paths) w in
      let '(result_ok, w) := tool_run_account num_errors res w in
      tool_run_verify fs out_path last_mtime result_ok w
  end.

(** ** The CommonJS loader (build.c) *)

Section Loader.
Context `{Engine}.






Definition newline : string := String (ascii_of_nat 10) "".









(** The table [filenames] of [find_cjs_module], applied to [id]. *)
Definition filenames (id : string) : list string :=
  [ id; id +:+ ".mjs"; id +:+ ".js"; id +:+ ".json";
    id +:+ "/package.json";
    id +:+ "/index.mjs"; id +:+ "/index.js"; id +:+ "/index.json" ].








End Loader.

(** ** The install tool (build.c) *)


(** ** File streams (build.c) *)



(** An open [FILE*]: the real name, the [fopen] mode and the position. *)
Record FILE := mk_FILE {
  f_name : string;
  f_mode : string;
  f_pos : nat
}.

(** [fopen] of the C library for the three modes used: ["rb"] and ["r+b"]
    need an existing file and leave it as it is, ["w+b"] creates the file
    or truncates it to zero length.  The stream starts at position 0. *)
Definition c_fopen (w : world) (name mode : string) : option FILE * world :=
  if String.eqb mode "w+b" || String.eqb mode "wb" then
    match c_write w name "" with
    | (true, w') => (Some (mk_FILE name mode 0), w')
    | (false, w') => (None, w')
    end
  else
    match files w !! name with
    | Some (File _ _) => (Some (mk_FILE name mode 0), w)
    | _ => (None, w)
    end.

Definition fs_fopen (fs : fs_t) (w : world) (filename mode : string)
  : option FILE * world :=
  match resolve fs filename with
  | None => (None, w)
  | Some resolved_name => c_fopen w resolved_name mode
  end.




(** ** Manifests (build.c) *)

(** [sscanf] of the C library for the format ["%dx%d"]: each [%d] skips
    white space, takes an optional sign and at least one digit; whatever
    follows the second number is not looked at.  (Numbers are taken as
    they are written; the range of [int] is not modelled.) *)
Definition is_space (c : ascii) : bool :=
  let n := nat_of_ascii c in
  (n =? 32)%nat || ((9 <=? n)%nat && (n <=? 13)%nat).

Definition digit_of (c : ascii) : option Z :=
  let n := nat_of_ascii c in
  if ((48 <=? n)%nat && (n <=? 57)%nat) then Some (Z.of_nat (n - 48)) else None.

Fixpoint skip_spaces (s : string) : string :=
  match s with
  | String c r => if is_space c then skip_spaces r else s
  | EmptyString => s
  end.

Fixpoint scan_digits (acc : Z) (s : string) : Z * string :=
  match s with
  | String c r =>
      match digit_of c with
      | Some d => scan_digits (10 * acc + d)%Z r
      | None => (acc, s)
      end
  | EmptyString => (acc, s)
  end.

Definition scan_unsigned (s : string) : option (Z * string) :=
  match s with
  | String c r =>
      match digit_of c with
      | Some d => Some (scan_digits d r)
      | None => None
      end
  | EmptyString => None
  end.

Definition scan_int (s : string) : option (Z * string) :=
  match skip_spaces s with
  | String "-"%char r =>
      match scan_unsigned r with
      | Some (n, rest) => Some ((- n)%Z, rest)
      | None => None
      end
  | String "+"%char r => scan_unsigned r
  | s' => scan_unsigned s'
  end.

(** [Some (width, height)] stands for the return value 2. *)
Definition sscanf_dxd (s : string) : option (Z * Z) :=
  match scan_int s with
  | Some (width, String "x"%char r) =>
      match scan_int r with
      | Some (height, _) => Some (width, height)
      | None => None
      end
  | _ => None
  end.

(** [duk_to_string] on the values the manifest holds. *)
Definition string_of_jsval (v : jsval) : string :=
  match v with JStr s => s | _ => "" end.

Section Manifests.
Context `{Engine}.

Definition get_descriptor (w : world) (key : string) : jsval :=
  assoc_get (descriptor (js w)) key.

Definition put_descriptor (w : world) (key : string) (v : jsval) : world :=
  let h := js w in
  set_js w (mk_heap (assoc_put (descriptor h) key v) (moduleCache h)
                    (objects h) (has_TypeScript h) (next_addr h)).

(** The text of [game.sgm] as the six [fprintf] calls write it. *)
Definition sgm_text (name author summary : string) (width height : Z)
    (script : string) : string :=
  "name=" +:+ name +:+ newline +:+
  "author=" +:+ author +:+ newline +:+
  "description=" +:+ summary +:+ newline +:+
  "screen_width=" +:+ fmt_d width +:+ newline +:+
  "screen_height=" +:+ fmt_d height +:+ newline +:+
  "script=" +:+ script +:+ newline.

(** The "validate game descriptor" steps for [name], [author] and
    [summary]: the strings that go on the value stack and the world after
    the warnings. *)
Definition validate_texts (w : world) : string * string * string * world :=
  let '(name, w) :=
    let v := get_descriptor w "name" in
    if negb (duk_is_string v)
    then ("Untitled", visor_warn w "missing or invalid 'name' field")
    else (string_of_jsval v, w) in
  let '(author, w) :=
    let v := get_descriptor w "author" in
    if negb (duk_is_string v)
    then ("Author Unknown", visor_warn w "missing or invalid 'author' field")
    else (string_of_jsval v, w) in
  let summary :=
    let v := get_descriptor w "summary" in
    if negb (duk_is_string v) then "No summary provided."
    else string_of_jsval v in
  (name, author, summary, w).

(** [write_manifests].  [fs_fopen] in mode [wb], the six [fprintf] calls
    and [fclose] amount to one [fs_fspew] of the whole text of
    [game.sgm]. *)
Definition write_manifests (fs : fs_t) (w : world) : bool * world :=
  let w := visor_begin_op w "writing Sphere manifest files" in
  let '(name, author, summary, w) := validate_texts w in
  let resolution := get_descriptor w "resolution" in
  match (if duk_is_string resolution
         then sscanf_dxd (string_of_jsval resolution) else None) with
  | None =>
      let w := visor_error w "missing or invalid 'resolution' field" in
      (false, visor_end_op w)
  | Some (width, height) =>
      let main := get_descriptor w "main" in
      if duk_is_string main then
        let main_path := fs_full_path (string_of_jsval main) (Some "@/") in
        if negb (path_hop_is main_path 0 "@") then
          let w := visor_error w
            ("'main': illegal prefix '" +:+ path_hop main_path 0
             +:+ "/' in filename") in
          (false, visor_end_op w)
        else if negb (fs_fexist fs w (path_cstr main_path)) then
          let w := visor_error w
            ("'main': file not found '" +:+ path_cstr main_path +:+ "'") in
          (false, visor_end_op w)
        else
          let w := put_descriptor w "main" (JStr (path_cstr main_path)) in
          let script_path := fs_relative_path (path_cstr main_path) "@/scripts" in
          let w := snd (fs_fspew fs w "@/game.sgm"
                          (sgm_text name author summary width height
                                    (path_cstr script_path))) in
          let json_text := duk_json_encode (JObj (descriptor (js w))) in
          let w := snd (fs_fspew fs w "@/game.json" json_text) in
          (true, visor_end_op w)
      else
        let w := visor_error w "missing or invalid 'main' field" in
        (false, visor_end_op w)
  end.

End Manifests.

(** ** The build driver (build.c) *)

(** [strcmp] of the C library: the difference of the first two bytes that
    differ. *)
Fixpoint strcmp (a b : string) : Z :=
  match a, b with
  | EmptyString, EmptyString => 0
  | EmptyString, String d _ => - Z.of_nat (nat_of_ascii d)
  | String c _, EmptyString => Z.of_nat (nat_of_ascii c)
  | String c a', String d b' =>
      if Ascii.eqb c d then strcmp a' b'
      else Z.of_nat (nat_of_ascii c) - Z.of_nat (nat_of_ascii d)
  end%Z.

(** [target.c] is not part of the sources at hand; the driver uses a
    target through these three calls, which are taken as an interface. *)
Class Targets (target_t : Type) := {
  target_path : target_t -> path_t;
  target_source_path : target_t -> option path_t;
  target_build : target_t -> bool -> world -> bool * world
}.

(** [struct build]; the visor and the script context live in the world. *)
Record build_t (target_t : Type) := mk_build {
  artifacts : list string;
  fs : fs_t;
  targets : list target_t;
  timestamp : Z
}.
Arguments mk_build {target_t}.
Arguments artifacts {target_t}.
Arguments fs {target_t}.
Arguments targets {target_t}.
Arguments timestamp {target_t}.

Section Driver.
Context `{Engine} {target_t : Type} `{Targets target_t}.

(** [sort_targets_by_path]. *)
Definition sort_targets_by_path (a b : target_t) : Z :=
  strcmp (path_cstr (target_path a)) (path_cstr (target_path b)).

(** [vector_sort] is [qsort] with the comparer; an insertion sort stands
    for it (the order among targets that compare equal does not show in
    the sequence of path names). *)
Fixpoint sort_insert (t : target_t) (l : list target_t) : list target_t :=
  match l with
  | [] => [t]
  | u :: l' =>
      if (sort_targets_by_path t u <=? 0)%Z then t :: l
      else u :: sort_insert t l'
  end.

Definition vector_sort (l : list target_t) : list target_t :=
  foldr sort_insert [] l.

Definition conflict_message (num_matches : nat) (filename : string) : string :=
  fmt_d (Z.of_nat num_matches) +:+ "-way conflict '" +:+ filename +:+ "'".

(** One turn of the loop over the sorted targets; the state is
    ([last_filename], [num_matches], world). *)
Definition conflict_step (st : string * nat * world) (filename : string)
  : string * nat * world :=
  let '(last_filename, num_matches, w) := st in
  if (strcmp filename last_filename =? 0)%Z
  then (filename, S num_matches, w)
  else (filename, 1%nat,
        if (1 <? num_matches)%nat
        then visor_error w (conflict_message num_matches filename)
        else w).

(** The conflict check over the sorted path names.  After the loop
    [filename] is the name seen last, which is [last_filename]. *)
Definition detect_conflicts (names : list string) (w : world) : world :=
  let '(last_filename, num_matches, w) :=
    fold_left conflict_step names ("", 1%nat, w) in
  if (1 <? num_matches)%nat
  then visor_error w (conflict_message num_matches last_filename)
  else w.

Definition is_output_path (path : path_t) : bool :=
  negb ((path_num_hops path =? 0)%nat || negb (path_hop_is path 0 "@")).

(** "build all relevant targets". *)
Definition build_targets (rebuild_all : bool) (ts : list target_t) (w : world)
  : world :=
  fold_left
    (fun w t =>
       if is_output_path (target_path t)
       then snd (target_build t rebuild_all w)
       else w)
    ts w.

Definition clean_old_artifacts (build : build_t target_t) (keep_targets : bool)
    (w : world) : world :=
  let w := visor_begin_op w "cleaning up old build artifacts" in
  let filenames := visor_filenames w in
  let w :=
    fold_left
      (fun w artifact =>
         let keep_file :=
           keep_targets && existsb (String.eqb artifact) filenames in
         if negb keep_file then
           let w := visor_begin_op w ("removing '" +:+ artifact +:+ "'") in
           let w := snd (fs_unlink (fs build) w artifact) in
           visor_end_op w
         else w)
      (artifacts build) w in
  visor_end_op w.

Definition source_map (ts : list target_t) : list (string * jsval) :=
  fold_left
    (fun props t =>
       let path := target_path t in
       if is_output_path path then
         match target_source_path t with
         | Some source_path =>
             assoc_put props (path_cstr path) (JStr (path_cstr source_path))
         | None => props
         end
       else props)
    ts [].

(** The tail of [build_run] that a successful build reaches: the source
    map and [artifacts.json]. *)
Definition write_tracking_files (build : build_t target_t) (want_debug : bool)
    (w : world) : world :=
  let w :=
    if want_debug then
      let w := visor_begin_op w "writing source map" in
      let json := duk_json_encode
                    (JObj [("fileMap", JObj (source_map (targets build)))]) in
      let w := snd (fs_fspew (fs build) w "@/sources.json" json) in
      visor_end_op w
    else snd (fs_unlink (fs build) w "@/sources.json") in
  let filenames := visor_filenames w in
  let json := duk_json_encode (JArr (map JStr filenames)) in
  snd (fs_fspew (fs build) w "@/artifacts.json" json).

Definition unlink_manifests (build : build_t target_t) (w : world) : world :=
  let w := snd (fs_unlink (fs build) w "@/game.json") in
  snd (fs_unlink (fs build) w "@/game.sgm").

(** [build_run] from "build all relevant targets" on. *)
Definition build_after_check (build : build_t target_t)
    (want_debug rebuild_all : bool) (w : world) : world :=
  let w := build_targets rebuild_all (targets build) w in
  let w := visor_end_op w in
  if (visor_num_errors w =? 0)%nat then
    let w := clean_old_artifacts build true w in
    match write_manifests (fs build) w with
    | (false, w) => unlink_manifests build w
    | (true, w) => write_tracking_files build want_debug w
    end
  else unlink_manifests build w.

Definition build_run (build : build_t target_t) (want_debug rebuild_all : bool)
    (w : world) : bool * world :=
  let w := visor_begin_op w "building targets" in
  let sorted_targets := vector_sort (targets build) in
  let w := detect_conflicts
             (map (fun t => path_cstr (target_path t)) sorted_targets) w in
  let w :=
    if (0 <? visor_num_errors w)%nat then visor_end_op w
    else build_after_check build want_debug rebuild_all w in
  ((visor_num_errors w =? 0)%nat, w).

End Driver.

(** ** What the specification says of the roots *)

Module Confinement.








End Confinement.
Export Confinement.

(** ** A sample installation, for the examples *)

Module Sample.

Definition fs0 : fs_t :=
  mk_fs (path_new_dir "/home/dev/src") (path_new_dir "/home/dev/dist")
        (path_new_dir "/opt/cell/system") None.

Definition visor0 : visor_t := mk_visor [] [] [] [] [].
Definition heap0 : js_heap := mk_heap [] ∅ ∅ false 0.

Definition world_of (fl : list (string * node)) : world :=
  mk_world (list_to_map fl) 100 visor0 heap0.

(** A stand-in engine: manifests are read in a line format
    ([main=<file>]), values are written without quoting, and every script
    compiles to a function that prints its file name on the visor. *)
Fixpoint sample_text (v : jsval) : string :=
  match v with
  | JUndefined => "undefined"
  | JNull => "null"
  | JBool b => if b then "true" else "false"
  | JNum z => fmt_d z
  | JStr s => s
  | JArr items => "[" +:+ String.concat "," (map sample_text items) +:+ "]"
  | JObj props =>
      "{" +:+ String.concat ","
                (map (fun kv => fst kv +:+ ":" +:+ sample_text (snd kv)) props)
          +:+ "}"
  | JRef a => "#" +:+ fmt_d (Z.of_nat a)
  end.

Definition sample_decode (s : string) : result jsval :=
  if String.eqb s "{}" then Ok (JObj [])
  else if String.prefix "main=" s
       then Ok (JObj [("main", JStr (String.substring 5 (String.length s - 5) s))])
       else Err (mk_error (Some DUK_ERR_SYNTAX_ERROR) "SyntaxError: parse error" "" 0).

Definition sample_program (m : nat) (filename dirname : string) (w : world)
  : js_outcome * world :=
  if String.prefix "throw" (path_filename (path_new filename))
  then (Threw (mk_error (Some DUK_ERR_ERROR) "Error: thrown" filename 1), w)
  else (Returned, visor_print w filename).

#[global] Instance sample_engine : Engine := {|
  duk_json_pdecode := sample_decode;
  duk_json_encode := sample_text;
  duk_pcompile := fun _ _ => Ok sample_program;
  ts_transpileModule := fun code _ => Ok code
|}.

(** Sample targets: a name for the output path and whether building it
    fails.  Building records the output among the visor's file names and
    reports an error when it fails. *)
Record sample_target := mk_sample { st_path : string; st_fails : bool }.

Definition sample_build (t : sample_target) (rebuild_all : bool) (w : world)
  : bool * world :=
  let v := visor w in
  let w := set_visor w (mk_visor (v_ops v) (v_errors v) (v_warns v)
                                 (v_prints v) (v_filenames v ++ [st_path t])) in
  if st_fails t then (false, visor_error w "tool failed") else (true, w).

#[global] Instance sample_targets : Targets sample_target := {|
  target_path := fun t => path_new (st_path t);
  target_source_path := fun _ => None;
  target_build := sample_build
|}.

(** A tool that writes its output, one that does nothing, and one that
    throws. *)
Definition writing_tool : tool_t :=
  mk_tool "building"
    (fun out _ w => (Returned, snd (fs_fspew fs0 w out "data"))).

Definition idle_tool : tool_t :=
  mk_tool "building" (fun _ _ w => (Returned, w)).

Definition throwing_tool : tool_t :=
  mk_tool "building"
    (fun out _ w =>
       (Threw (mk_error (Some DUK_ERR_ERROR) "Error: boom" "Cellscript.js" 7),
        snd (fs_fspew fs0 w out "partial"))).

Definition out_bin : path_t := path_new "@/out.bin".

Definition world_out : world :=
  world_of [("/home/dev/dist/out.bin", File "old" 50)].

(** Builds: two targets on one output path followed by a third target;
    and a single target whose tool fails. *)
Definition build_conflict : build_t sample_target :=
  mk_build [] fs0
    [mk_sample "@/a.txt" false; mk_sample "@/b.txt" false;
     mk_sample "@/a.txt" false] 0.

Definition build_failing : build_t sample_target :=
  mk_build ["@/old.txt"] fs0 [mk_sample "@/a.txt" true] 0.

Definition world_lib : world :=
  world_of [("/home/dev/src/lib/a.js", File "exports.a = 1;" 10);
            ("/home/dev/src/lib/throw.js", File "throw 1;" 10);
            ("/home/dev/src/lib/package.json", File "{}" 10);
            ("/home/dev/src/a.txt", File "A" 10)].


(** The same with nothing but the script and a complete descriptor. *)
Definition world_game_ok : world :=
  set_js (world_of [("/home/dev/dist/main.js", File "start();" 10)])
    (mk_heap [("name", JStr "Spectacles"); ("author", JStr "Fat Cerberus");
              ("summary", JStr "A game."); ("resolution", JStr "320x240");
              ("main", JStr "main.js")]
             ∅ ∅ false 0).

Definition world_dist : world :=
  world_of [("/home/dev/dist/game.json", File "{}" 50);
            ("/home/dev/dist/game.sgm", File "name=Old" 50);
            ("/home/dev/dist/artifacts.json", File "[@/old.txt]" 50)].

End Sample.

(** * More of the code *)

From Stdlib Require Import Sorted.

(** ** C strings *)

(** What [strcmp] and [path_cstr] deal in: a string that holds no
    terminator character. *)
Fixpoint is_cstring (s : string) : bool :=
  match s with
  | EmptyString => true
  | String c r => negb (Ascii.eqb c Ascii.zero) && is_cstring r
  end.

(** ** More of the build driver (build.c) *)

Section DriverCalls.
Context {target_t : Type}.

Definition build_clean (build : build_t target_t) (w : world) : bool * world :=
  let w := clean_old_artifacts build false w in
  let w := snd (fs_unlink (fs build) w "@/artifacts.json") in
  (true, w).

End DriverCalls.

(** [js_FS_deleteFile]: [filename] is the path name as
    [duk_require_pathname] hands it back.  The test is [!fs_unlink(...)],
    and [fs_unlink] gives 0 when the file has been removed. *)
Definition js_FS_deleteFile (fs : fs_t) (filename : string) (w : world)
  : result unit * world :=
  let '(r, w) := fs_unlink fs w filename in
  if (r =? 0)%Z
  then (Err (duk_error_blame DUK_ERR_ERROR "unable to delete file"), w)
  else (Ok tt, w).

(** ** More of SphereFS (fs.c) *)

Definition fs_dir_exists (fs : fs_t) (w : world) (dirname : string) : bool :=
  match fs_stat fs w dirname with
  | Some sb => negb (is_regular sb)
  | None => false
  end.

(** ** References to script objects (utility.c) *)

(** The stash slot [refs]: under the text of a heap pointer, an object
    with its [refcount] and the [value] it keeps alive.  A heap pointer is
    an address; the count is a script number, taken in [Z] (it is exact
    below 2^53). *)
Definition duk_ref_heapptr (refs : gmap Z (Z * Z)) (heapptr : Z) : gmap Z (Z * Z) :=
  match refs !! heapptr with
  | Some (refcount, value) => <[heapptr := ((refcount + 1)%Z, value)]> refs
  | None => <[heapptr := (1%Z, heapptr)]> refs
  end.

Definition duk_unref_heapptr (refs : gmap Z (Z * Z)) (heapptr : Z) : gmap Z (Z * Z) :=
  match refs !! heapptr with
  | Some (refcount, value) =>
      let refcount := (refcount - 1)%Z in
      if (0 <? refcount)%Z then <[heapptr := (refcount, value)]> refs
      else delete heapptr refs
  | None => refs
  end.

(** ** The life of a tool (tool.c) *)

(** [struct tool] as it lies in memory: the reference count, an
    [unsigned int], beside the callback's heap pointer and the verb. *)
Record tool_mem := mk_tool_mem {
  refcount : Z;
  callback_ptr : Z;
  tool_verb : string
}.

Definition UINT_MAX : Z := 4294967295.

(** [tool_ref]; [None] is [NULL]. *)
Definition tool_ref (tool : option tool_mem) : option tool_mem :=
  match tool with
  | None => None
  | Some t =>
      Some (mk_tool_mem ((refcount t + 1) mod (UINT_MAX + 1))
                        (callback_ptr t) (tool_verb t))
  end.

(** [tool_new]: the callback on top of the value stack is at
    [callback_ptr].  [calloc] is taken to succeed; the code does not
    check it. *)
Definition tool_new (refs : gmap Z (Z * Z)) (callback_ptr : Z) (verb : string)
  : option tool_mem * gmap Z (Z * Z) :=
  let refs := duk_ref_heapptr refs callback_ptr in
  (tool_ref (Some (mk_tool_mem 0 callback_ptr verb)), refs).

(** [tool_unref]: what is left of the tool, [None] once it is freed (or
    for [NULL]), and the table of references. *)
Definition tool_unref (tool : option tool_mem) (refs : gmap Z (Z * Z))
  : option tool_mem * gmap Z (Z * Z) :=
  match tool with
  | None => (None, refs)
  | Some t =>
      let n := ((refcount t - 1) mod (UINT_MAX + 1))%Z in
      if (0 <? n)%Z
      then (Some (mk_tool_mem n (callback_ptr t) (tool_verb t)), refs)
      else (None, duk_unref_heapptr refs (callback_ptr t))
  end.

(** ** Vectors (vector.c) *)

Module Vector.

(** The C allocator: whether [calloc] of a vector header succeeds, and
    whether [realloc] of a buffer to the given number of items does. *)
Class Allocator := {
  calloc_ok : bool;
  realloc_ok : Z -> bool
}.

Section Vec.
Context `{Allocator} {A : Type} (junk : A).

(** [struct vector].  An item stands for [pitch] bytes, so [memcpy] of one
    item is the copy of one element; [buffer] holds all the allocated
    items, of which the first [num_items] are in use, and [junk] is what
    memory holds before it is written ([NULL] is the empty buffer).  The
    sizes are [int]s, taken in [Z]: overflow, which C leaves undefined, is
    not modelled. *)
Record vector_t := mk_vector {
  buffer : list A;
  num_items : Z;
  max_items : Z
}.

(** [memmove(buffer + dst, buffer + src, n)], in items. *)
Definition memmove (b : list A) (dst src n : Z) : list A :=
  let d := Z.to_nat dst in
  let k := Z.to_nat n in
  (take d b ++ take k (drop (Z.to_nat src) b) ++ drop (d + k) b)%list.

Definition ensure_space (vector : vector_t) (min_items : Z) (compacting : bool)
  : bool * vector_t :=
  let new_max :=
    if (max_items vector <? min_items)%Z then (min_items * 2)%Z
    else if compacting && (min_items <? Z.quot (max_items vector) 4)%Z
         then (min_items * 2)%Z
         else max_items vector in
  if negb (new_max =? max_items vector)%Z then
    if realloc_ok new_max then
      (true, mk_vector (resize (Z.to_nat new_max) junk (buffer vector))
                       (num_items vector) new_max)
    else if (0 <? new_max)%Z then (false, vector)
    else (true, mk_vector [] (num_items vector) new_max)
  else (true, vector).

(** [vector_new]: [None] is the [NULL] returned when the header cannot be
    allocated.  The result of [ensure_space] is not looked at. *)
Definition vector_new : option vector_t :=
  if calloc_ok then Some (snd (ensure_space (mk_vector [] 0 0) 8 false))
  else None.

(** [vector_dup]: [None] when [vector_new] gives [NULL], which the code
    goes on to write through. *)
Definition vector_dup (it : vector_t) : option vector_t :=
  match vector_new with
  | None => None
  | Some copy =>
      let copy := snd (ensure_space copy (num_items it) false) in
      let n := Z.to_nat (num_items it) in
      Some (mk_vector (take n (buffer it) ++ drop n (buffer copy))%list
                      (num_items it) (max_items copy))
  end.

Definition vector_len (it : vector_t) : Z := num_items it.

Definition vector_clear (it : vector_t) : vector_t :=
  snd (ensure_space (mk_vector (buffer it) 0 (max_items it)) 8 true).

(** [vector_get] gives the address of an item; reading it gives the item
    when the address lies in the buffer. *)
Definition vector_get (it : vector_t) (index : Z) : option A :=
  if (index <? 0)%Z then None else buffer it !! Z.to_nat index.

Definition vector_insert (it : vector_t) (index : Z) (in_object : A)
  : bool * vector_t :=
  match ensure_space it (num_items it + 1) false with
  | (false, it) => (false, it)
  | (true, it) =>
      let b := memmove (buffer it) (index + 1) index (num_items it - index) in
      let b := <[Z.to_nat index := in_object]> b in
      (true, mk_vector b (num_items it + 1) (max_items it))
  end.

Definition vector_push (it : vector_t) (in_object : A) : bool * vector_t :=
  match ensure_space it (num_items it + 1) false with
  | (false, it) => (false, it)
  | (true, it) =>
      (true, mk_vector (<[Z.to_nat (num_items it) := in_object]> (buffer it))
                       (num_items it + 1) (max_items it))
  end.

Definition vector_put (it : vector_t) (index : Z) (in_object : A) : vector_t :=
  mk_vector (<[Z.to_nat index := in_object]> (buffer it))
            (num_items it) (max_items it).

Definition vector_remove (it : vector_t) (index : Z) : vector_t :=
  let num := (num_items it - 1)%Z in
  let move_size := (num - index)%Z in
  let b := memmove (buffer it) index (index + 1) move_size in
  snd (ensure_space (mk_vector b num (max_items it)) num true).

Definition vector_resize (it : vector_t) (new_size : Z) : bool * vector_t :=
  match ensure_space it new_size true with
  | (false, it) => (false, it)
  | (true, it) => (true, mk_vector (buffer it) new_size (max_items it))
  end.

Definition vector_pop (it : vector_t) (num : Z) : bool * vector_t :=
  vector_resize it (num_items it - num).

(** [iter_t]: [ptr] is kept as the offset, in items, of the item pointed
    at from the start of the buffer, [None] for [NULL]; the vector the
    iterator points to is passed along. *)
Record iter_t := mk_iter {
  ptr : option Z;
  index : Z
}.

Definition vector_enum : iter_t := mk_iter None (-1).

(** [iter_next]: the item found, or [None] for [NULL], and the iterator
    moved on.  With a [NULL] buffer the pointer stays [NULL]. *)
Definition iter_next (vector : vector_t) (iter : iter_t) : option A * iter_t :=
  let p := match ptr iter with
           | Some p => (p + 1)%Z
           | None => 0%Z
           end in
  let iter' := mk_iter (if (max_items vector <=? 0)%Z
                        then match ptr iter with
                             | Some _ => Some p
                             | None => None
                             end
                        else Some p)
                       (index iter + 1) in
  (if (p <? num_items vector)%Z then buffer vector !! Z.to_nat p else None,
   iter').

Definition iter_remove (vector : vector_t) (iter : iter_t)
  : vector_t * iter_t :=
  let vector := vector_remove vector (index iter) in
  let i := (index iter - 1)%Z in
  (vector, mk_iter (if (0 <=? i)%Z then Some i else None) i).

(** The loop [while (p = iter_next(&iter)) ...] that only reads: the items
    it meets, in at most [fuel] turns. *)
Fixpoint iter_items (fuel : nat) (vector : vector_t) (iter : iter_t) : list A :=
  match fuel with
  | O => []
  | S fuel =>
      match iter_next vector iter with
      | (Some x, iter) => x :: iter_items fuel vector iter
      | (None, _) => []
      end
  end.

(** The loop [while (iter_next(&iter)) { if (finished(item))
    iter_remove(&iter); }]: the items it meets and the vector it leaves,
    in at most [fuel] turns; [None] when the fuel runs out first. *)
Fixpoint iter_remove_if (fuel : nat) (finished : A -> bool)
    (vector : vector_t) (iter : iter_t) : option (list A * vector_t) :=
  match fuel with
  | O => None
  | S fuel =>
      match iter_next vector iter with
      | (Some x, iter) =>
          let '(vector, iter) :=
            if finished x then iter_remove vector iter else (vector, iter) in
          match iter_remove_if fuel finished vector iter with
          | Some (seen, vector) => Some (x :: seen, vector)
          | None => None
          end
      | (None, _) => Some ([], vector)
      end
  end.

(** The items in use, and what holds of every vector the functions hand
    out: the buffer has [max_items] items and [num_items] of them are in
    use. *)
Definition live (it : vector_t) : list A :=
  take (Z.to_nat (num_items it)) (buffer it).

Definition wf (it : vector_t) : Prop :=
  length (buffer it) = Z.to_nat (max_items it) /\
  (0 <= num_items it <= max_items it)%Z.

(** The calls that change a vector, and what a caller owes each of them:
    an index or a size within the items in use. *)
Inductive vec_op :=
  | OpPush (x : A)
  | OpInsert (i : Z) (x : A)
  | OpPut (i : Z) (x : A)
  | OpRemove (i : Z)
  | OpResize (n : Z)
  | OpPop (n : Z)
  | OpClear.

Definition op_in_range (it : vector_t) (op : vec_op) : Prop :=
  match op with
  | OpPush _ | OpClear => True
  | OpInsert i _ => (0 <= i <= num_items it)%Z
  | OpPut i _ | OpRemove i => (0 <= i < num_items it)%Z
  | OpResize n => (0 <= n)%Z
  | OpPop n => (0 <= n <= num_items it)%Z
  end.

Definition apply_op (it : vector_t) (op : vec_op) : vector_t :=
  match op with
  | OpPush x => snd (vector_push it x)
  | OpInsert i x => snd (vector_insert it i x)
  | OpPut i x => vector_put it i x
  | OpRemove i => vector_remove it i
  | OpResize n => snd (vector_resize it n)
  | OpPop n => snd (vector_pop it n)
  | OpClear => vector_clear it
  end.

(** A run of calls, each in range for the vector the calls before it
    left. *)
Fixpoint ops_in_range (it : vector_t) (ops : list vec_op) : Prop :=
  match ops with
  | [] => True
  | op :: ops => op_in_range it op /\ ops_in_range (apply_op it op) ops
  end.

Definition apply_ops (it : vector_t) (ops : list vec_op) : vector_t :=
  fold_left apply_op ops it.

(** The offset of the item the next [iter_next] looks at. *)
Definition iter_pos (iter : iter_t) : Z :=
  match ptr iter with
  | Some p => (p + 1)%Z
  | None => 0%Z
  end.

End Vec.

Arguments vector_t A : clear implicits.
Arguments mk_vector {A}.
Arguments vec_op A : clear implicits.

End Vector.

(** ** Source text in the debugger (ssj/source.c) *)

Module Source.
Import Vector.

Definition LF : ascii := ascii_of_nat 10.
Definition CR : ascii := ascii_of_nat 13.

(** The loop of [read_line]: the characters of the line and the text
    left after it.  A line ends at a line feed, at a carriage return, at
    the two in a row, or where the text ends.  The buffer of the line is
    taken to be allocated; the code does not check [malloc] and
    [realloc]. *)
Fixpoint scan_line (p_string : string) : string * string :=
  match p_string with
  | EmptyString => (EmptyString, EmptyString)
  | String ch rest =>
      if Ascii.eqb ch LF then (EmptyString, rest)
      else if Ascii.eqb ch CR then
        (EmptyString,
         match rest with
         | String c rest' => if Ascii.eqb c LF then rest' else rest
         | EmptyString => rest
         end)
      else let '(buffer, rest) := scan_line rest in (String ch buffer, rest)
  end.

(** [read_line]: the line, [None] for [NULL], and the text left. *)
Definition read_line (p_string : string) : option string * string :=
  let '(buffer, rest) := scan_line p_string in
  if String.eqb rest "" && (String.length buffer =? 0)%nat
  then (None, rest)
  else (Some buffer, rest).

Section Lines.
Context `{Allocator} (junk : string).

(** The loop of [source_new], in at most [fuel] turns; a line that
    [vector_push] cannot store is dropped. *)
Fixpoint read_lines (fuel : nat) (p_source : string) (lines : vector_t string)
  : vector_t string :=
  match fuel with
  | O => lines
  | S fuel =>
      match read_line p_source with
      | (Some line_text, rest) =>
          read_lines fuel rest (snd (vector_push junk lines line_text))
      | (None, _) => lines
      end
  end.

(** [source_new]: the vector of lines; [None] when [vector_new] gives
    [NULL], which the code goes on to use.  Each turn of the loop takes at
    least one character, so the length of the text bounds the turns. *)
Definition source_new (text : string) : option (vector_t string) :=
  match vector_new junk with
  | None => None
  | Some lines => Some (read_lines (S (String.length text)) text lines)
  end.

Definition source_cloc (source : vector_t string) : Z := vector_len source.

Definition source_get_line (source : vector_t string) (line_index : Z)
  : option string :=
  if (line_index <? 0)%Z || (source_cloc source <=? line_index)%Z then None
  else vector_get source line_index.

End Lines.

(** A text with no line terminator in it. *)
Fixpoint is_line (s : string) : bool :=
  match s with
  | EmptyString => true
  | String c r => negb (Ascii.eqb c LF) && negb (Ascii.eqb c CR) && is_line r
  end.

(** The three line terminators. *)
Definition terminators : list string :=
  [String LF ""; String CR ""; String CR (String LF "")].

End Source.

(** ** The value stack of the script layer (jsal.c) *)

Module Jsal.
Import Vector.

(** [struct js_ref]: a value of the engine and whether the reference to
    it is weak.  A value is the address the engine gives. *)
Record js_ref := mk_ref {
  weak_ref : bool;
  value : Z
}.

(** What the stack functions work on: [s_value_stack], [s_stack_base],
    and the engine's side of [JsAddRef] and [JsRelease]: for each value
    the calls of the first less the calls of the second. *)
Record jsal_t := mk_jsal {
  s_value_stack : vector_t js_ref;
  s_stack_base : Z;
  held : gmap Z Z
}.


Definition JsRelease (held : gmap Z Z) (v : Z) : gmap Z Z :=
  <[v := (default 0 (held !! v) - 1)%Z]> held.

(** [if (!ref->weak_ref) JsRelease(ref->value, NULL)]. *)
Definition release_ref (held : gmap Z Z) (ref : js_ref) : gmap Z Z :=
  if weak_ref ref then held else JsRelease held (value ref).

Section Stack.
Context `{Allocator} (junk : js_ref) (undefined : Z).

Definition jsal_get_top (st : jsal_t) : Z :=
  (vector_len (s_value_stack st) - s_stack_base st)%Z.

(** [jsal_normalize_index]; [None] when [jsal_error] throws (the error
    value it pushes on its way is not followed). *)
Definition jsal_normalize_index (st : jsal_t) (index : Z) : option Z :=
  let top := jsal_get_top st in
  let real_index := if (index <? 0)%Z then (index + top)%Z else index in
  if (real_index <? 0)%Z || (top <=? real_index)%Z then None
  else Some real_index.





(** [jsal_insert]: [[ ... value ] -> [ ... value ... ]]. *)
Definition jsal_insert (st : jsal_t) (at_index : Z) : option jsal_t :=
  match jsal_normalize_index st at_index with
  | None => None
  | Some at_index =>
      if (at_index =? jsal_get_top st - 1)%Z then Some st
      else
        let stack := s_value_stack st in
        match vector_get stack (vector_len stack - 1) with
        | None => None
        | Some ref =>
            let stack :=
              snd (vector_insert junk stack (at_index + s_stack_base st) ref) in
            let stack := snd (vector_pop junk stack 1) in
            Some (mk_jsal stack (s_stack_base st) (held st))
        end
  end.

Definition jsal_pull (st : jsal_t) (from_index : Z) : option jsal_t :=
  match jsal_normalize_index st from_index with
  | None => None
  | Some from_index =>
      let stack := s_value_stack st in
      match vector_get stack (from_index + s_stack_base st) with
      | None => None
      | Some ref =>
          let stack := snd (vector_push junk stack ref) in
          let stack := vector_remove junk stack (from_index + s_stack_base st) in
          Some (mk_jsal stack (s_stack_base st) (held st))
      end
  end.



(** The first loop of [resize_stack]: the references at the indices
    given are released in turn. *)
Fixpoint release_at (stack : vector_t js_ref) (indices : list Z)
    (held : gmap Z Z) : option (gmap Z Z) :=
  match indices with
  | [] => Some held
  | i :: indices =>
      match vector_get stack i with
      | None => None
      | Some ref_ptr => release_at stack indices (release_ref held ref_ptr)
      end
  end.

(** [resize_stack]; the result of [vector_resize] is not looked at. *)
Definition resize_stack (st : jsal_t) (new_size : Z) : option jsal_t :=
  let old_size := vector_len (s_value_stack st) in
  match (if (new_size <? old_size)%Z
         then release_at (s_value_stack st)
                (seqZ new_size (old_size - new_size)) (held st)
         else Some (held st)) with
  | None => None
  | Some held =>
      let stack := snd (vector_resize junk (s_value_stack st) new_size) in
      let stack :=
        if (old_size <? new_size)%Z
        then fold_left (fun stack i => vector_put stack i (mk_ref true undefined))
                       (seqZ old_size (new_size - old_size)) stack
        else stack in
      Some (mk_jsal stack (s_stack_base st) held)
  end.

Definition jsal_set_top (st : jsal_t) (new_top : Z) : option jsal_t :=
  resize_stack st (new_top + s_stack_base st).

Definition jsal_pop (st : jsal_t) (num_values : Z) : option jsal_t :=
  let top := jsal_get_top st in
  if (top <? num_values)%Z then None
  else jsal_set_top st (top - num_values).



End Stack.

(** The values on the stack, bottom first. *)
Definition stack_items (st : jsal_t) : list js_ref := live (s_value_stack st).

(** The strong references to a value among some references, and what
    the engine holds of the value beyond them. *)
Definition strong_refs (x : Z) (refs : list js_ref) : Z :=
  Z.of_nat (length (filter (fun r => weak_ref r = false /\ value r = x) refs)).

Definition surplus (st : jsal_t) (x : Z) : Z :=
  (default 0 (held st !! x) - strong_refs x (stack_items st))%Z.

(** A stack within its bounds whose base lies in it. *)
Definition stack_ok (st : jsal_t) : Prop :=
  wf (s_value_stack st) /\
  (0 <= s_stack_base st <= num_items (s_value_stack st))%Z.


End Jsal.

(** ** Directories (fs.c) *)

(** [tinydir.h] is not part of the sources at hand; listing a directory
    goes through it, and what is needed of it is taken as an interface:
    the entries that [tinydir_readfile] and [tinydir_next] give in turn
    for a real directory name, each with its name and whether it is a
    directory, or [None] when [tinydir_open] fails. *)
Class Tinydir := {
  tinydir_entries : world -> string -> option (list (string * bool))
}.

Module Directory.
Import Vector.

(** What reading an entry gives: a path, [NULL], or whatever lies
    outside the vector when the position is not in it. *)
Inductive entry :=
  | Entry (path : path_t)
  | Null
  | Wild.

(** [struct directory]; [entries] is [None] for [NULL]. *)
Record directory_t := mk_directory {
  entries : option (vector_t path_t);
  d_fs : fs_t;
  position : Z;
  d_path : path_t
}.

Section Dir.
Context `{Allocator} `{Tinydir} (junk : path_t).

(** The loop of [fs_list_dir] over the entries read. *)
Definition list_entries (origin_path : path_t) (found : list (string * bool))
    (list : vector_t path_t) : vector_t path_t :=
  fold_left
    (fun (list : vector_t path_t) (file_info : string * bool) =>
       let '(name, is_dir) := file_info in
       if String.eqb name "." || String.eqb name ".." then list
       else
         let path := if is_dir then path_new_dir name else path_new name in
         let path := path_rebase path origin_path in
         snd (vector_push junk list path))
    found list.

(** [fs_list_dir]: [None] is the [NULL] of a name that cannot be
    resolved or opened.  The vector is taken to be there: with [NULL]
    from [vector_new] the first [vector_push] fails in C. *)
Definition fs_list_dir (fs : fs_t) (w : world) (dirname : string)
  : option (vector_t path_t) :=
  match resolve fs dirname with
  | None => None
  | Some resolved_name =>
      match tinydir_entries w resolved_name with
      | None => None
      | Some found =>
          let origin_path := path_new_dir dirname in
          match vector_new junk with
          | None => None
          | Some list => Some (list_entries origin_path found list)
          end
      end
  end.

(** [directory_open]: [calloc] leaves [entries] at [NULL] and the
    position at 0. *)
Definition directory_open (fs : fs_t) (w : world) (dirname : string)
  : option directory_t :=
  if negb (fs_dir_exists fs w dirname) then None
  else Some (mk_directory None fs 0 (path_new_dir dirname)).

Definition directory_rewind (w : world) (it : directory_t) : directory_t :=
  let path_list := fs_list_dir (d_fs it) w (path_cstr (d_path it)) in
  mk_directory path_list (d_fs it) 0 (d_path it).

(** [if (it->entries == NULL) directory_rewind(it);]. *)
Definition directory_load (w : world) (it : directory_t) : directory_t :=
  match entries it with
  | None => directory_rewind w it
  | Some _ => it
  end.

(** [directory_num_files]; [None] when the list is still [NULL], which
    [vector_len] goes on to read. *)
Definition directory_num_files (w : world) (it : directory_t)
  : option Z * directory_t :=
  let it := directory_load w it in
  (vector_len <$> entries it, it).

Definition directory_position (it : directory_t) : Z := position it.

(** [directory_next]; [None] when the list is still [NULL]. *)
Definition directory_next (w : world) (it : directory_t)
  : option entry * directory_t :=
  let it := directory_load w it in
  match entries it with
  | None => (None, it)
  | Some list =>
      if (vector_len list <=? position it)%Z then (Some Null, it)
      else
        let path := match vector_get list (position it) with
                    | Some path => Entry path
                    | None => Wild
                    end in
        (Some path,
         mk_directory (entries it) (d_fs it) (position it + 1) (d_path it))
  end.


(** The loop [while (path = directory_next(it))], in at most [fuel]
    turns: the paths it gets and the directory it leaves. *)
Fixpoint directory_read (fuel : nat) (w : world) (it : directory_t)
  : list path_t * directory_t :=
  match fuel with
  | O => ([], it)
  | S fuel =>
      let '(found, it) := directory_next w it in
      match found with
      | Some (Entry path) =>
          let '(paths, it) := directory_read fuel w it in (path :: paths, it)
      | _ => ([], it)
      end
  end.

End Dir.

(** The paths [fs_list_dir] makes of the entries found. *)
Definition listed (dirname : string) (found : list (string * bool))
  : list path_t :=
  map (fun file_info : string * bool =>
         path_rebase (if snd file_info then path_new_dir (fst file_info)
                      else path_new (fst file_info))
                     (path_new_dir dirname))
      (filter (fun file_info : string * bool =>
                 fst file_info <> "." /\ fst file_info <> "..") found).

End Directory.

(** ** Dispatch of jobs (async.c) *)

Module Async.
Import Vector.

Section Jobs.
Context `{Allocator} {script_t async_hint_t double : Type}.

(** [async_hint_t] and [ASYNC_RENDER] are those of async.h:
    [hint_is_render hint] is [hint == ASYNC_RENDER].  Of [double] the
    code uses the negation, [fneg], and the zero that [calloc] leaves,
    [zero]. *)
Context (hint_is_render : async_hint_t -> bool) (fneg : double -> double)
        (zero : double).

(** [struct job].  The vectors hold pointers to jobs, one pointer to
    each job; a job is kept where its pointer is. *)
Record job_t := mk_job {
  armed : bool;
  finished : bool;
  hint : async_hint_t;
  priority : double;
  timer : Z;
  token : Z;
  script : script_t
}.

(** The static variables; [None] is [NULL].  Tokens are [int64_t],
    taken in [Z]. *)
Record async_t := mk_async {
  s_need_sort : bool;
  s_next_token : Z;
  s_onetime : option (vector_t job_t);
  s_recurring : option (vector_t job_t)
}.

(** The variables as the program starts. *)
Definition async_start : async_t := mk_async false 1 None None.

Context (junk : job_t).

Definition async_init (st : async_t) : async_t :=
  mk_async (s_need_sort st) (s_next_token st)
           (vector_new junk) (vector_new junk).

(** [async_defer]: the token and the new state.  [calloc] of the job is
    taken to succeed, the code does not check it; the result of
    [vector_push] is not looked at. *)
Definition async_defer (st : async_t) (script : script_t) (timeout : Z)
    (hint : async_hint_t) : Z * async_t :=
  match s_onetime st with
  | None => (0%Z, st)
  | Some onetime =>
      let job := mk_job false false hint zero timeout (s_next_token st) script in
      (token job,
       mk_async (s_need_sort st) (s_next_token st + 1)
                (Some (snd (vector_push junk onetime job))) (s_recurring st))
  end.

Definition async_recur (st : async_t) (script : script_t) (priority : double)
    (hint : async_hint_t) : Z * async_t :=
  match s_recurring st with
  | None => (0%Z, st)
  | Some recurring =>
      let priority := if hint_is_render hint then fneg priority else priority in
      let job := mk_job false false hint priority 0 (s_next_token st) script in
      (token job,
       mk_async true (s_next_token st + 1) (s_onetime st)
                (Some (snd (vector_push junk recurring job))))
  end.

(** A loop [while (p_job = iter_next(&iter))] that writes to the jobs it
    meets: the items in use are visited in order. *)
Definition each_job (f : job_t -> job_t) (jobs : vector_t job_t)
  : vector_t job_t :=
  let n := Z.to_nat (num_items jobs) in
  mk_vector (map f (take n (buffer jobs)) ++ drop n (buffer jobs))%list
            (num_items jobs) (max_items jobs).

Definition finish (job : job_t) : job_t :=
  mk_job (armed job) true (hint job) (priority job) (timer job) (token job)
         (script job).

(** [async_cancel]; [None] when a queue is [NULL], which [iter_next]
    goes on to read. *)
Definition async_cancel (st : async_t) (tok : Z) : option async_t :=
  match s_onetime st, s_recurring st with
  | Some onetime, Some recurring =>
      let mark job := if (token job =? tok)%Z then finish job else job in
      Some (mk_async true (s_next_token st)
                     (Some (each_job mark onetime))
                     (Some (each_job mark recurring)))
  | _, _ => None
  end.

Definition async_cancel_all (st : async_t) (recurring : bool) : option async_t :=
  match s_onetime st with
  | None => None
  | Some onetime =>
      let onetime := each_job finish onetime in
      if recurring then
        match s_recurring st with
        | None => None
        | Some jobs =>
            Some (mk_async true (s_next_token st) (Some onetime)
                           (Some (each_job finish jobs)))
        end
      else Some (mk_async (s_need_sort st) (s_next_token st) (Some onetime)
                          (s_recurring st))
  end.

Definition async_busy (st : async_t) : option bool :=
  match s_recurring st, s_onetime st with
  | Some recurring, Some onetime =>
      Some ((0 <? vector_len recurring)%Z || (0 <? vector_len onetime)%Z)
  | _, _ => None
  end.

(** The calls a script can make, and a run of them. *)
Inductive async_op :=
  | Defer (script : script_t) (timeout : Z) (hint : async_hint_t)
  | Recur (script : script_t) (priority : double) (hint : async_hint_t)
  | Cancel (tok : Z)
  | CancelAll (recurring : bool).

Definition async_apply (st : async_t) (op : async_op) : option async_t :=
  match op with
  | Defer script timeout hint => Some (snd (async_defer st script timeout hint))
  | Recur script priority hint => Some (snd (async_recur st script priority hint))
  | Cancel tok => async_cancel st tok
  | CancelAll recurring => async_cancel_all st recurring
  end.

Fixpoint async_run (st : async_t) (ops : list async_op) : option async_t :=
  match ops with
  | [] => Some st
  | op :: ops =>
      match async_apply st op with
      | None => None
      | Some st => async_run st ops
      end
  end.

(** The jobs in the two queues and their tokens. *)
Definition queued (st : async_t) : list job_t :=
  (from_option live [] (s_onetime st) ++
   from_option live [] (s_recurring st))%list.

Definition queued_tokens (st : async_t) : list Z := map token (queued st).

(** What the calls keep: the queues within their bounds, the tokens
    in them distinct and below the next one. *)
Definition queue_tokens (q : option (vector_t job_t)) : list Z :=
  map token (from_option live [] q).

Definition queue_wf (q : option (vector_t job_t)) : Prop :=
  from_option wf True q.

Definition tokens_below (st : async_t) : Prop :=
  queue_wf (s_onetime st) /\ queue_wf (s_recurring st) /\
  NoDup (queued_tokens st) /\
  Forall (fun t => 1 <= t < s_next_token st)%Z (queued_tokens st).

End Jobs.

Arguments job_t : clear implicits.
Arguments async_t : clear implicits.
Arguments async_op : clear implicits.

End Async.

(** ** Sample data for the examples that follow *)

Module Examples.
Import Vector.

(** An allocator that grants every request. *)
Definition reliable : Allocator :=
  {| calloc_ok := true; realloc_ok := fun _ => true |}.

(** Three numbers in a buffer of eight; one number in a buffer of
    sixteen; a new vector and some calls on it. *)
Definition numbers : vector_t Z := mk_vector [5; 7; 9; 0; 0; 0; 0; 0]%Z 3 8.

Definition sparse : vector_t Z :=
  mk_vector [5; 7; 0; 0; 0; 0; 0; 0; 0; 0; 0; 0; 0; 0; 0; 0]%Z 2 16.

Definition fresh : vector_t Z := mk_vector (replicate 16 0%Z) 0 16.

Definition calls : list (vec_op Z) :=
  [OpPush 1%Z; OpPush 2%Z; OpInsert 1 3%Z; OpRemove 0; OpPut 0 4%Z;
   OpResize 5; OpPop 2; OpClear].

(** A text of two lines, the first ended by a carriage return and a
    line feed, the second by a line feed. *)
Definition listing : string :=
  "a" +:+ String Source.CR (String Source.LF ("b" +:+ String Source.LF "")).

(** A build of one target over the artifacts of an earlier one. *)
Definition build_ok : build_t Sample.sample_target :=
  mk_build ["@/old.txt"] Sample.fs0 [Sample.mk_sample "@/a.txt" false] 0.

(** A value stack of three references, the last one weak, with its base
    above the first; the engine holds one reference to each of the two
    values referred to strongly. *)
Definition stack3 : Jsal.jsal_t :=
  Jsal.mk_jsal
    (mk_vector [Jsal.mk_ref false 10; Jsal.mk_ref false 20;
                Jsal.mk_ref true 30; Jsal.mk_ref true 0;
                Jsal.mk_ref true 0; Jsal.mk_ref true 0;
                Jsal.mk_ref true 0; Jsal.mk_ref true 0] 3 8)
    1 (<[10%Z := 1%Z]> (<[20%Z := 1%Z]> ∅)).

(** A source tree with a directory [lib], what listing it gives, the
    directory as [directory_open] leaves it and as it is once read. *)
Definition world_dir : world :=
  Sample.world_of [("/home/dev/src/lib/", Dir 10);
                   ("/home/dev/src/lib/a.js", File "exports.a = 1;" 10);
                   ("/home/dev/src/lib/sub/", Dir 10)].

Definition lib_entries : list (string * bool) :=
  [(".", true); ("..", true); ("a.js", false); ("sub", true)].

Definition sample_tinydir : Tinydir :=
  {| tinydir_entries := fun _ name =>
       if String.eqb name "/home/dev/src/lib/" then Some lib_entries
       else None |}.

Definition lib_dir : Directory.directory_t :=
  Directory.mk_directory None Sample.fs0 0 (path_new_dir "lib/").



(** Calls on the job queues: scripts are named by strings, a hint is
    whether it is the render hint, priorities are integers.  A dummy
    job fills the unused slots. *)
Definition no_job : Async.job_t string bool Z :=
  Async.mk_job false false false 0%Z 0 0 "".

Definition job_calls : list (Async.async_op string bool Z) :=
  [Async.Defer "a" 0 false; Async.Recur "b" 5%Z true; Async.Cancel 1;
   Async.Defer "c" 2 false; Async.CancelAll false].

End Examples.

(** * Properties *)

(** ** C1: resolution *)

Section ResolveFacts.








End ResolveFacts.




(** ** C2 and C9: running a tool *)

Section ToolFacts.

Lemma visor_end_op_files (w : world) : files (visor_end_op w) = files w.
Proof. done. Qed.

Lemma fs_stat_visor (fs : fs_t) (w : world) (v : visor_t) (name : string) :
  fs_stat fs (set_visor w v) name = fs_stat fs w name.
Proof. unfold fs_stat. by destruct (resolve fs name). Qed.

Lemma fs_fexist_same_files (fs : fs_t) (w w' : world) (name : string) :
  files w' = files w -> fs_fexist fs w' name = fs_fexist fs w name.
Proof. intros Hf. unfold fs_fexist, fs_stat. by rewrite Hf. Qed.

(** Once [fs_unlink] has run, no regular file has the name. *)
Lemma fs_unlink_gone (fs : fs_t) (w : world) (name : string) :
  fs_fexist fs (snd (fs_unlink fs w name)) name = false.
Proof.
  unfold fs_fexist, fs_stat, fs_unlink, c_unlink.
  destruct (resolve fs name) as [r|] eqn:Hr; simpl; [|done].
  destruct (files w !! r) as [[c t|t]|] eqn:Hn; simpl.
  - by rewrite lookup_delete_eq.
  - by rewrite Hn.
  - by rewrite Hn.
Qed.

(** Unlinking a name that [stat] does not find changes nothing. *)
Lemma fs_unlink_missing (fs : fs_t) (w : world) (name : string) :
  fs_stat fs w name = None -> snd (fs_unlink fs w name) = w.
Proof.
  unfold fs_stat, fs_unlink, c_unlink.
  destruct (resolve fs name) as [r|]; [|done]. by intros ->.
Qed.

Lemma fs_unlink_same_files (fs : fs_t) (w w' : world) (name : string) :
  files w' = files w ->
  files (snd (fs_unlink fs w' name)) = files (snd (fs_unlink fs w name)).
Proof.
  intros Hf. unfold fs_unlink, c_unlink. rewrite Hf.
  destruct (resolve fs name) as [r|]; [|done].
  destruct (files w !! r) as [[c t|t]|]; simpl; by rewrite ?Hf.
Qed.

Lemma tool_run_account_files (n : nat) (res : js_outcome) (w : world) :
  files (snd (tool_run_account n res w)) = files w.
Proof. unfold tool_run_account. by destruct res. Qed.

Lemma tool_run_account_true (n : nat) (res : js_outcome) (w w' : world) :
  tool_run_account n res w = (true, w') ->
  res = Returned /\ w' = w /\ (visor_num_errors w <= n)%nat.
Proof.
  unfold tool_run_account. destruct res as [|e]; simpl.
  - destruct (n <? visor_num_errors w)%nat eqn:Hlt; [done|].
    apply Nat.ltb_ge in Hlt. intros [= <-]. done.
  - match goal with |- context [if ?c then _ else _] => by destruct c end.
Qed.

Lemma tool_run_verify_true (fs : fs_t) (out_path : path_t) (last_mtime : Z)
    (ok : bool) (w w' : world) :
  tool_run_verify fs out_path last_mtime ok w = (true, w') ->
  ok = true /\
  exists stats,
    fs_stat fs w (path_cstr out_path) = Some stats /\
    w' = visor_end_op
           (if (node_mtime stats =? last_mtime)%Z
            then visor_warn w "target file unchanged after build"
            else w).
Proof.
  unfold tool_run_verify. destruct ok; [|done].
  destruct (fs_stat fs w (path_cstr out_path)) as [stats|]; [|done].
  destruct (node_mtime stats =? last_mtime)%Z eqn:E; intros [= <-];
    (split; [done|]); exists stats; by rewrite E.
Qed.

Lemma tool_run_verify_false (fs : fs_t) (out_path : path_t) (last_mtime : Z)
    (ok : bool) (w : world) :
  fst (tool_run_verify fs out_path last_mtime ok w) = false ->
  files (snd (tool_run_verify fs out_path last_mtime ok w))
    = files (snd (fs_unlink fs w (path_cstr out_path))) /\
  fs_fexist fs (snd (tool_run_verify fs out_path last_mtime ok w))
    (path_cstr out_path) = false.
Proof.
  unfold tool_run_verify. destruct ok.
  - destruct (fs_stat fs w (path_cstr out_path)) as [stats|] eqn:Hst.
    + by destruct (node_mtime stats =? last_mtime)%Z.
    + intros _. simpl. split.
      * by rewrite fs_unlink_missing.
      * unfold fs_fexist, visor_end_op, visor_error.
        by rewrite !fs_stat_visor, Hst.
  - intros _. simpl. split; [done|].
    rewrite (fs_fexist_same_files _ _ _ _ (visor_end_op_files _)).
    apply fs_unlink_gone.
Qed.

End ToolFacts.

(** C2.  With a callback, [tool_run] returns true only if the callback
    returned without throwing, the error count after the call is not
    above the count before it, and [stat] finds the output afterwards;
    on that path an output whose mtime equals the one taken before the
    call draws the warning "target file unchanged after build" and no
    error; and whenever [tool_run] returns false the files are those left
    by unlinking the output after the callback, so that no regular file
    has the output's name. *)
Theorem tool_run_postconditions (t : tool_t) (w : world) (fs : fs_t)
    (out_path : path_t) (in_paths : list path_t) :
  let entry := tool_run_entry t w fs out_path in
  let called :=
    callback t (path_cstr out_path) (map path_cstr in_paths) entry in
  let done := tool_run (Some t) w fs out_path in_paths in
  (fst done = true ->
     fst called = Returned /\
     (visor_num_errors (snd called) <= visor_num_errors entry)%nat /\
     is_Some (fs_stat fs (snd done) (path_cstr out_path))) /\
  (fst done = true ->
     (exists stats,
        fs_stat fs (snd called) (path_cstr out_path) = Some stats /\
        node_mtime stats = last_mtime_of fs entry out_path) ->
     v_warns (visor (snd done))
       = (v_warns (visor (snd called)) ++ ["target file unchanged after build"])%list /\
     v_errors (visor (snd done)) = v_errors (visor (snd called))) /\
  (fst done = false ->
     files (snd done)
       = files (snd (fs_unlink fs (snd called) (path_cstr out_path))) /\
     fs_fexist fs (snd done) (path_cstr out_path) = false).
Proof.
  intros entry called done. subst done. unfold tool_run.
  fold entry. fold called. destruct called as [res w1] eqn:Hcall. simpl.
  destruct (tool_run_account (visor_num_errors entry) res w1)
    as [ok w2] eqn:Hacc.
  destruct (tool_run_verify fs out_path (last_mtime_of fs entry out_path) ok w2)
    as [r w3] eqn:Hver.
  simpl. split; [|split].
  - intros ->. apply tool_run_verify_true in Hver as (-> & stats & Hst & ->).
    apply tool_run_account_true in Hacc as (-> & -> & Hle).
    repeat split; [done|].
    unfold visor_end_op. rewrite fs_stat_visor.
    destruct (node_mtime stats =? _)%Z;
      unfold visor_warn; rewrite ?fs_stat_visor, Hst; eauto.
  - intros -> (stats & Hst & Hm).
    apply tool_run_verify_true in Hver as (-> & stats' & Hst' & ->).
    apply tool_run_account_true in Hacc as (-> & -> & Hle).
    rewrite Hst in Hst'. injection Hst' as <-.
    apply Z.eqb_eq in Hm. by rewrite Hm.
  - intros ->.
    pose proof (tool_run_verify_false fs out_path
                  (last_mtime_of fs entry out_path) ok w2) as Hf.
    rewrite Hver in Hf. destruct (Hf eq_refl) as [Hfiles Hgone].
    split; [|done]. simpl in Hfiles. rewrite Hfiles.
    apply fs_unlink_same_files.
    pose proof (tool_run_account_files (visor_num_errors entry) res w1) as Ha.
    by rewrite Hacc in Ha.
Qed.

Lemma tool_run_postconditions_witness :
  is_Some (fs_stat Sample.fs0
             (snd (tool_run (Some Sample.writing_tool) Sample.world_lib
                     Sample.fs0 Sample.out_bin []))
             (path_cstr Sample.out_bin)) /\
  (fst (tool_run (Some Sample.idle_tool) Sample.world_out Sample.fs0
          Sample.out_bin []) = true /\
   v_warns (visor (snd (tool_run (Some Sample.idle_tool) Sample.world_out
                          Sample.fs0 Sample.out_bin [])))
     = ["target file unchanged after build"]) /\
  (fst (tool_run (Some Sample.throwing_tool) Sample.world_out Sample.fs0
          Sample.out_bin []) = false /\
   fs_fexist Sample.fs0
     (snd (tool_run (Some Sample.throwing_tool) Sample.world_out Sample.fs0
             Sample.out_bin []))
     (path_cstr Sample.out_bin) = false).
Proof.
  pose proof (tool_run_postconditions Sample.idle_tool Sample.world_out
                Sample.fs0 Sample.out_bin []) as Hidle.
  pose proof (tool_run_postconditions Sample.throwing_tool Sample.world_out
                Sample.fs0 Sample.out_bin []) as Hthrow.
  pose proof (tool_run_postconditions Sample.writing_tool Sample.world_lib
                Sample.fs0 Sample.out_bin []) as Hwrite.
  cbv zeta in Hidle, Hthrow, Hwrite.
  destruct Hidle as (_ & Hwarn & _). destruct Hthrow as (_ & _ & Hgone).
  destruct Hwrite as (Hmade & _ & _).
  split; [apply Hmade; vm_compute; reflexivity|].
  split; split.
  - vm_compute. reflexivity.
  - apply Hwarn.
    + vm_compute. reflexivity.
    + eexists. split; vm_compute; reflexivity.
  - vm_compute. reflexivity.
  - apply Hgone. vm_compute. reflexivity.
Defined.

(** C9.  Without a tool, [tool_run] returns true at once and leaves the
    world as it is: no callback runs, no directory is made, the visor's
    error and warning lists stay, and no file is looked at or changed. *)
Theorem tool_run_null_tool (w : world) (fs : fs_t) (out_path : path_t)
    (in_paths : list path_t) :
  tool_run None w fs out_path in_paths = (true, w).
Proof. reflexivity. Qed.

(** ** C3 and C4: the build driver *)

Section DriverFacts.
Context `{Engine} {target_t : Type} `{Targets target_t}.

Lemma conflict_fold_files (names : list string) (st : string * nat * world) :
  files (snd (fold_left conflict_step names st)) = files (snd st).
Proof.
  revert st. induction names as [|n names IH]; intros [[l k] w]; [done|].
  simpl. rewrite IH. unfold conflict_step.
  destruct (strcmp n l =? 0)%Z; [done|]. by destruct (1 <? k)%nat.
Qed.

Lemma detect_conflicts_files (names : list string) (w : world) :
  files (detect_conflicts names w) = files w.
Proof.
  unfold detect_conflicts.
  pose proof (conflict_fold_files names ("", 1%nat, w)) as Hf.
  destruct (fold_left conflict_step names ("", 1%nat, w)) as [[l k] w'].
  simpl in Hf. by destruct (1 <? k)%nat.
Qed.

Lemma fs_unlink_subseteq (fs : fs_t) (w : world) (name : string) :
  files (snd (fs_unlink fs w name)) ⊆ files w.
Proof.
  unfold fs_unlink, c_unlink. destruct (resolve fs name) as [r|]; [|done].
  destruct (files w !! r) as [[c t|t]|]; simpl; try done.
  apply delete_subseteq.
Qed.

Lemma fs_fexist_anti (fs : fs_t) (w w' : world) (name : string) :
  files w' ⊆ files w ->
  fs_fexist fs w name = false -> fs_fexist fs w' name = false.
Proof.
  intros Hsub. unfold fs_fexist, fs_stat.
  destruct (resolve fs name) as [r|]; [|done].
  destruct (files w' !! r) as [n|] eqn:Hn; [|done].
  by rewrite (lookup_weaken _ _ _ _ Hn Hsub).
Qed.

Lemma unlink_manifests_spec (build : build_t target_t) (w : world) :
  files (unlink_manifests build w) ⊆ files w /\
  fs_fexist (fs build) (unlink_manifests build w) "@/game.json" = false /\
  fs_fexist (fs build) (unlink_manifests build w) "@/game.sgm" = false /\
  visor (unlink_manifests build w) = visor w.
Proof.
  unfold unlink_manifests. repeat split.
  - etrans; apply fs_unlink_subseteq.
  - eapply fs_fexist_anti; [apply fs_unlink_subseteq | apply fs_unlink_gone].
  - apply fs_unlink_gone.
  - unfold fs_unlink, c_unlink.
    destruct (resolve (fs build) "@/game.json") as [r1|],
             (resolve (fs build) "@/game.sgm") as [r2|]; simpl; try done.
    all: repeat match goal with
         | |- context [files ?w !! ?r] =>
             destruct (files w !! r) as [[?|?]|]; simpl
         end; done.
Qed.

Lemma validate_texts_world (w : world) :
  files (snd (validate_texts w)) = files w /\
  js (snd (validate_texts w)) = js w /\
  v_errors (visor (snd (validate_texts w))) = v_errors (visor w).
Proof.
  unfold validate_texts, get_descriptor.
  destruct (duk_is_string (assoc_get (descriptor (js w)) "name"));
  simpl; destruct (duk_is_string (assoc_get (descriptor (js w)) "author"));
  done.
Qed.

(** A failed [write_manifests] has written nothing and has reported an
    error. *)
Lemma write_manifests_false (fs : fs_t) (w : world) :
  fst (write_manifests fs w) = false ->
  files (snd (write_manifests fs w)) = files w /\
  (0 < visor_num_errors (snd (write_manifests fs w)))%nat.
Proof.
  unfold write_manifests.
  pose proof (validate_texts_world
                (visor_begin_op w "writing Sphere manifest files"))
    as (Hf & Hj & He).
  destruct (validate_texts (visor_begin_op w "writing Sphere manifest files"))
    as [[[name author] summary] w1].
  simpl in Hf, Hj, He.
  repeat match goal with
  | |- context [match ?x with Some _ => _ | None => _ end] =>
      destruct x as [[? ?]|]
  | |- context [if ?c then _ else _] => destruct c
  end; simpl; try done;
  intros _; (split; [done|]);
  unfold visor_num_errors; simpl; rewrite length_app; simpl; lia.
Qed.

End DriverFacts.

Section ConflictFacts.

Lemma strcmp_refl (a : string) : strcmp a a = 0%Z.
Proof. induction a as [|c a IH]; [done|]. simpl. by rewrite Ascii.eqb_refl. Qed.

Lemma conflict_step_same (a : string) (n : nat) (w : world) :
  conflict_step (a, n, w) a = (a, S n, w).
Proof. unfold conflict_step. by rewrite strcmp_refl. Qed.

Lemma conflict_step_other (a b : string) (n : nat) (w : world) :
  strcmp b a <> 0%Z ->
  conflict_step (a, n, w) b
  = (b, 1%nat,
     if (1 <? n)%nat then visor_error w (conflict_message n b) else w).
Proof. intros Hb. unfold conflict_step. apply Z.eqb_neq in Hb. by rewrite Hb. Qed.

Lemma conflict_fold_cons (x : string) (l : list string)
    (st : string * nat * world) :
  fold_left conflict_step (x :: l) st
  = fold_left conflict_step l (conflict_step st x).
Proof. done. Qed.

Lemma conflict_fold_run (a : string) (k n : nat) (w : world) :
  fold_left conflict_step (repeat a k) (a, n, w) = (a, (k + n)%nat, w).
Proof.
  revert n. induction k as [|k IH]; intros n; [done|].
  simpl repeat. rewrite conflict_fold_cons, conflict_step_same, IH.
  f_equal. f_equal. lia.
Qed.

(** A run of two or more equal names that another name follows is
    reported once, with the right count, under the name that follows. *)
Lemma conflict_run_reported_under_next (a b : string) (k : nat) (w : world) :
  strcmp a "" <> 0%Z -> strcmp b a <> 0%Z ->
  v_errors (visor (detect_conflicts (a :: repeat a (S k) ++ [b]) w))
  = (v_errors (visor w) ++ [conflict_message (S (S k)) b])%list.
Proof.
  intros Ha Hb. unfold detect_conflicts.
  rewrite conflict_fold_cons, (conflict_step_other "" a) by done.
  simpl Nat.ltb. cbv iota.
  rewrite fold_left_app, conflict_fold_run.
  rewrite conflict_fold_cons, conflict_step_other by done.
  replace (S k + 1)%nat with (S (S k)) by lia. done.
Qed.

(** The same run at the end of the list is reported under its own name. *)
Lemma conflict_run_reported_at_end (a : string) (k : nat) (w : world) :
  strcmp a "" <> 0%Z ->
  v_errors (visor (detect_conflicts (a :: repeat a (S k)) w))
  = (v_errors (visor w) ++ [conflict_message (S (S k)) a])%list.
Proof.
  intros Ha. unfold detect_conflicts.
  rewrite conflict_fold_cons, (conflict_step_other "" a) by done.
  simpl Nat.ltb. cbv iota. rewrite conflict_fold_run.
  replace (S k + 1)%nat with (S (S k)) by lia. done.
Qed.

End ConflictFacts.

(** C3.  The conflict check at work on three targets, two of them on
    [@/a.txt] and one on [@/b.txt]: the run of two equal paths is found
    and counted, no target is built, but the one error names the path
    that follows the run, [@/b.txt], not the path in conflict. *)
Theorem conflict_error_names_following_path :
  map (fun t => path_cstr (target_path t))
      (vector_sort (targets Sample.build_conflict))
    = ["@/a.txt"; "@/a.txt"; "@/b.txt"] /\
  v_errors (visor (snd (build_run Sample.build_conflict false false
                          Sample.world_dist)))
    = ["2-way conflict '@/b.txt'"] /\
  fst (build_run Sample.build_conflict false false Sample.world_dist) = false /\
  visor_filenames (snd (build_run Sample.build_conflict false false
                          Sample.world_dist)) = [].
Proof. repeat split; vm_compute; reflexivity. Qed.

(** When the check leaves errors on the visor the run stops there: no
    target is built and no file is touched. *)
Lemma build_run_stops_on_conflict `{Engine} {target_t : Type}
    `{Targets target_t} (build : build_t target_t)
    (want_debug rebuild_all : bool) (w : world) :
  let checked :=
    detect_conflicts
      (map (fun t => path_cstr (target_path t)) (vector_sort (targets build)))
      (visor_begin_op w "building targets") in
  (0 < visor_num_errors checked)%nat ->
  build_run build want_debug rebuild_all w = (false, visor_end_op checked).
Proof.
  intros checked Herr. unfold build_run. fold checked.
  apply Nat.ltb_lt in Herr as Hlt. rewrite Hlt.
  replace (visor_num_errors (visor_end_op checked)) with (visor_num_errors checked)
    by done.
  destruct (visor_num_errors checked); [lia | done].
Qed.

(** C4, as amended.  [build_run] returns false exactly when it ends with
    errors on the visor.  When the conflict check leaves errors, it
    returns at once and no file is deleted or written.  When the targets
    were built and errors were counted afterwards, or the build was clean
    but the manifests could not be written, both [@/game.json] and
    [@/game.sgm] are unlinked and nothing is written: [@/artifacts.json]
    is not brought up to date on any failing path. *)
Theorem build_run_failure_paths `{Engine} {target_t : Type}
    `{Targets target_t} (build : build_t target_t)
    (want_debug rebuild_all : bool) (w : world) :
  let checked :=
    detect_conflicts
      (map (fun t => path_cstr (target_path t)) (vector_sort (targets build)))
      (visor_begin_op w "building targets") in
  let built :=
    visor_end_op (build_targets rebuild_all (targets build) checked) in
  let cleaned := clean_old_artifacts build true built in
  let done := build_run build want_debug rebuild_all w in
  fst done = (visor_num_errors (snd done) =? 0)%nat /\
  ((0 < visor_num_errors checked)%nat ->
     fst done = false /\ files (snd done) = files w) /\
  (visor_num_errors checked = 0%nat ->
   (0 < visor_num_errors built)%nat ->
     fst done = false /\
     snd done = unlink_manifests build built /\
     files (snd done) ⊆ files built /\
     fs_fexist (fs build) (snd done) "@/game.json" = false /\
     fs_fexist (fs build) (snd done) "@/game.sgm" = false) /\
  (visor_num_errors checked = 0%nat ->
   visor_num_errors built = 0%nat ->
   fst (write_manifests (fs build) cleaned) = false ->
     fst done = false /\
     files (snd done) ⊆ files cleaned /\
     fs_fexist (fs build) (snd done) "@/game.json" = false /\
     fs_fexist (fs build) (snd done) "@/game.sgm" = false).
Proof.
  intros checked built cleaned done. split; [done|]. split; [|split].
  - intros Herr. subst done.
    rewrite (build_run_stops_on_conflict build want_debug rebuild_all w Herr).
    split; [done|]. simpl. subst checked. by rewrite detect_conflicts_files.
  - intros Hok Hbad. subst done. unfold build_run. fold checked.
    rewrite Hok. simpl. unfold build_after_check. fold built.
    destruct (visor_num_errors built) as [|n] eqn:Hn; [lia|]. simpl.
    destruct (unlink_manifests_spec build built) as (Hsub & Hj & Hs & Hv).
    unfold visor_num_errors in *. rewrite Hv, Hn. done.
  - intros Hok Hclean Hwm. subst done. unfold build_run. fold checked.
    rewrite Hok. simpl. unfold build_after_check. fold built.
    rewrite Hclean. simpl. fold cleaned.
    destruct (write_manifests_false _ _ Hwm) as [Hfiles Herrs].
    destruct (write_manifests (fs build) cleaned) as [ok w1].
    simpl in Hwm, Hfiles, Herrs. subst ok.
    destruct (unlink_manifests_spec build w1) as (Hsub & Hj & Hs & Hv).
    unfold visor_num_errors in *. rewrite Hv.
    destruct (length (v_errors (visor w1))); [lia|].
    simpl. by rewrite <- Hfiles.
Qed.

Lemma build_run_failure_paths_witness :
  (fst (build_run Sample.build_conflict false false Sample.world_dist) = false /\
   files (snd (build_run Sample.build_conflict false false Sample.world_dist))
     = files Sample.world_dist) /\
  (fst (build_run Sample.build_failing false false Sample.world_dist) = false /\
   fs_fexist Sample.fs0
     (snd (build_run Sample.build_failing false false Sample.world_dist))
     "@/game.json" = false).
Proof.
  pose proof (build_run_failure_paths Sample.build_conflict false false
                Sample.world_dist) as Hc.
  pose proof (build_run_failure_paths Sample.build_failing false false
                Sample.world_dist) as Hf.
  cbv zeta in Hc, Hf.
  destruct Hc as (_ & Hc & _). destruct Hf as (_ & _ & Hf & _).
  split.
  - apply Hc. vm_compute. lia.
  - assert (Hb : visor_num_errors
                   (visor_end_op
                      (build_targets false (targets Sample.build_failing)
                         (detect_conflicts
                            (map (fun t => path_cstr (target_path t))
                               (vector_sort (targets Sample.build_failing)))
                            (visor_begin_op Sample.world_dist "building targets"))))
                 = 1%nat) by (vm_compute; reflexivity).
    destruct Hf as (Hr & _ & _ & Hj & _).
    + vm_compute. reflexivity.
    + rewrite Hb. lia.
    + split; [exact Hr | exact Hj].
Defined.

(** C4, as stated, fails twice over.  A run that ends on a conflict
    leaves [@/game.json] where it was; and a run in which a target fails
    leaves [@/artifacts.json] with the old list although the artifact set
    of the run is another one. *)
Lemma build_run_keeps_stale_files :
  (fst (build_run Sample.build_conflict false false Sample.world_dist) = false /\
   fs_fexist Sample.fs0
     (snd (build_run Sample.build_conflict false false Sample.world_dist))
     "@/game.json" = true) /\
  (fst (build_run Sample.build_failing false false Sample.world_dist) = false /\
   visor_filenames
     (snd (build_run Sample.build_failing false false Sample.world_dist))
     = ["@/a.txt"] /\
   duk_json_encode (JArr (map JStr ["@/a.txt"])) = "[@/a.txt]" /\
   fs_fslurp Sample.fs0
     (snd (build_run Sample.build_failing false false Sample.world_dist))
     "@/artifacts.json" = Some "[@/old.txt]").
Proof. repeat split; vm_compute; reflexivity. Qed.

(** ** C5: the module cache *)

Section LoaderFacts.
Context `{Engine}.







End LoaderFacts.



(** ** C6: finding a module *)

Section FindFacts.
Context `{Engine}.




End FindFacts.




(** ** C7: the install tool *)





(** ** C10: opening a file stream for update *)



(** ** C8: validating the game descriptor *)

Section ManifestFacts.
Context `{Engine}.

Lemma fs_fspew_files (fs : fs_t) (w : world) (name data : string) :
  files (snd (fs_fspew fs w name data))
  = match resolve fs name with
    | None => files w
    | Some r =>
        match files w !! r with
        | Some (Dir _) => files w
        | _ => <[r := File data (clock w)]> (files w)
        end
    end /\
  clock (snd (fs_fspew fs w name data)) = clock w.
Proof.
  unfold fs_fspew, c_write. destruct (resolve fs name) as [r|]; [|done].
  by destruct (files w !! r) as [[?|?]|].
Qed.


Lemma fs_fspew_visor (fs : fs_t) (w : world) (name data : string) :
  visor (snd (fs_fspew fs w name data)) = visor w.
Proof.
  unfold fs_fspew, c_write. destruct (resolve fs name) as [r|]; [|done].
  by destruct (files w !! r) as [[?|?]|].
Qed.


End ManifestFacts.




(** * More properties *)

(** ** Vectors (vector.c) *)

Section VectorFacts.
Import Vector.
Context `{Allocator} {A : Type} (junk : A).

Implicit Types v : vector_t A.

Lemma ensure_space_num v m c :
  num_items (snd (ensure_space junk v m c)) = num_items v.
Proof.
  unfold ensure_space.
  repeat match goal with |- context [if ?b then _ else _] => destruct b end;
    done.
Qed.

Lemma ensure_space_fail v m c v' :
  ensure_space junk v m c = (false, v') ->
  v' = v /\ realloc_ok (m * 2) = false.
Proof.
  unfold ensure_space.
  destruct (max_items v <? m)%Z; simpl.
  - destruct (negb _); [|done].
    destruct (realloc_ok (m * 2)) eqn:Hr; [done|].
    destruct (0 <? m * 2)%Z; [|done]. by intros [= <-].
  - destruct (c && (m <? max_items v `quot` 4)%Z); simpl.
    + destruct (negb _); [|done].
      destruct (realloc_ok (m * 2)) eqn:Hr; [done|].
      destruct (0 <? m * 2)%Z; [|done]. by intros [= <-].
    + by rewrite Z.eqb_refl.
Qed.

(** What a successful [ensure_space] leaves: a buffer of the new size that
    agrees with the old one on the items both have. *)
Lemma ensure_space_ok v m c v' :
  wf v -> (0 <= m)%Z ->
  ensure_space junk v m c = (true, v') ->
  length (buffer v') = Z.to_nat (max_items v') /\
  (m <= max_items v')%Z /\
  num_items v' = num_items v /\
  (forall k : nat,
     (Z.of_nat k <= max_items v)%Z -> (Z.of_nat k <= max_items v')%Z ->
     take k (buffer v') = take k (buffer v)).
Proof.
  intros [Hlen Hnum] Hm. unfold ensure_space.
  set (new_max := if (max_items v <? m)%Z then (m * 2)%Z
                  else if c && (m <? max_items v `quot` 4)%Z then (m * 2)%Z
                       else max_items v).
  assert (Hnew : (m <= new_max)%Z /\ (0 <= new_max)%Z).
  { subst new_max. destruct (Z.ltb_spec (max_items v) m); [lia|].
    destruct (c && _); lia. }
  destruct (Z.eqb_spec new_max (max_items v)) as [Heq|Hne]; simpl.
  - intros [= <-]. repeat split; try done. lia.
  - destruct (realloc_ok new_max).
    + intros [= <-]. simpl. rewrite length_resize.
      repeat split; try done; try lia.
      intros k Hk Hk'. rewrite take_resize_le by lia.
      rewrite resize_le by lia. done.
    + destruct (Z.ltb_spec 0 new_max); [done|].
      intros [= <-]. simpl. assert (new_max = 0%Z) as -> by lia.
      repeat split; try done; try lia.
      intros k Hk Hk'. assert (k = 0%nat) as -> by lia. done.
Qed.

Lemma ensure_space_wf v m c :
  wf v -> (num_items v <= m)%Z ->
  wf (snd (ensure_space junk v m c)) /\
  live (snd (ensure_space junk v m c)) = live v.
Proof.
  intros Hwf Hm. destruct (ensure_space junk v m c) as [[] v'] eqn:He.
  - destruct Hwf as [Hlen Hnum].
    destruct (ensure_space_ok v m c v') as (Hl & Hmax & Hn & Htake);
      [done | lia | done |].
    simpl. split; [split; [done | lia]|].
    unfold live. rewrite Hn. apply Htake; lia.
  - apply ensure_space_fail in He as [-> _]. done.
Qed.

Lemma memmove_length (b : list A) (dst src n : Z) :
  (0 <= dst)%Z -> (0 <= src)%Z -> (0 <= n)%Z ->
  (Z.to_nat src + Z.to_nat n <= length b)%nat ->
  (Z.to_nat dst + Z.to_nat n <= length b)%nat ->
  length (memmove b dst src n) = length b.
Proof.
  intros. unfold memmove.
  rewrite !length_app, !length_take, !length_drop. lia.
Qed.

Lemma live_length v : wf v -> length (live v) = Z.to_nat (num_items v).
Proof. intros [Hlen Hnum]. unfold live. rewrite length_take. lia. Qed.

Lemma vector_push_live v x :
  wf v ->
  match vector_push junk v x with
  | (true, v') =>
      wf v' /\ live v' = (live v ++ [x])%list /\
      num_items v' = (num_items v + 1)%Z
  | (false, v') =>
      v' = v /\ realloc_ok ((num_items v + 1) * 2) = false
  end.
Proof.
  intros Hwf. unfold vector_push.
  destruct (ensure_space junk v (num_items v + 1) false) as [[] v1] eqn:He.
  - pose proof Hwf as [Hlen Hnum].
    destruct (ensure_space_ok v (num_items v + 1) false v1 Hwf)
      as (Hl & Hmax & Hn & Htake); [lia | done |].
    simpl. split; [|split]; [| |lia].
    + split; simpl; [rewrite length_insert; done | lia].
    + unfold live. simpl. rewrite Hn.
      replace (Z.to_nat (num_items v + 1)) with (S (Z.to_nat (num_items v)))
        by lia.
      rewrite (take_S_r _ _ x) by (apply list_lookup_insert_eq; lia).
      rewrite take_insert_ge by lia. f_equal. apply Htake; lia.
  - by apply ensure_space_fail in He.
Qed.

(** X1.  [vector_push] on a vector within its bounds: when it reports
    success the items in use are the old ones followed by the new one;
    when it reports failure, [realloc] has refused the doubled size and
    the vector is as it was. *)
Theorem vector_push_appends_or_fails v x :
  wf v ->
  match vector_push junk v x with
  | (true, v') =>
      wf v' /\ live v' = (live v ++ [x])%list /\
      num_items v' = (num_items v + 1)%Z
  | (false, v') =>
      v' = v /\ realloc_ok ((num_items v + 1) * 2) = false
  end.
Proof. apply vector_push_live. Qed.

End VectorFacts.

Lemma vector_push_appends_or_fails_witness :
  Vector.live (snd (@Vector.vector_push Examples.reliable Z 0%Z
                      Examples.numbers 11%Z))
  = [5; 7; 9; 11]%Z.
Proof.
  pose proof (@vector_push_appends_or_fails Examples.reliable Z 0%Z
                Examples.numbers 11%Z) as Hp.
  assert (Hwf : Vector.wf Examples.numbers)
    by (split; [reflexivity | simpl; lia]).
  specialize (Hp Hwf).
  destruct (Vector.vector_push 0%Z Examples.numbers 11%Z) as [[] v'] eqn:E.
  - destruct Hp as (_ & Hl & _). simpl. rewrite Hl. reflexivity.
  - vm_compute in E. discriminate E.
Defined.

Section VectorCalls.
Import Vector.
Context `{Allocator} {A : Type} (junk : A).
Implicit Types v : vector_t A.

Lemma vector_remove_live v i :
  wf v -> (0 <= i < num_items v)%Z ->
  wf (vector_remove junk v i) /\
  live (vector_remove junk v i) = delete (Z.to_nat i) (live v) /\
  num_items (vector_remove junk v i) = (num_items v - 1)%Z.
Proof.
  intros [Hlen Hnum] Hi. unfold vector_remove.
  set (v1 := mk_vector _ _ _).
  assert (Hwf1 : wf v1).
  { split; simpl; [|lia]. rewrite memmove_length; [done|lia..]. }
  assert (Hlive1 : live v1 = delete (Z.to_nat i) (live v)).
  { unfold live, v1, memmove. simpl.
    replace (Z.to_nat (num_items v - 1))
      with (Z.to_nat i + Z.to_nat (num_items v - 1 - i))%nat by lia.
    rewrite take_app_add' by (rewrite length_take; lia).
    rewrite take_app_length' by (rewrite length_take, length_drop; lia).
    rewrite delete_take_drop, take_take, skipn_firstn_comm.
    replace (Z.to_nat i `min` Z.to_nat (num_items v))%nat with (Z.to_nat i) by lia.
    replace (Z.to_nat (i + 1)) with (S (Z.to_nat i)) by lia.
    do 2 f_equal. lia. }
  destruct (ensure_space_wf junk v1 (num_items v - 1) true Hwf1) as [Hw Hl];
    [simpl; lia|].
  split; [done|]. split; [by rewrite Hl|].
  by rewrite ensure_space_num.
Qed.

Lemma vector_insert_live v i x :
  wf v -> (0 <= i <= num_items v)%Z ->
  match vector_insert junk v i x with
  | (true, v') =>
      wf v' /\
      live v' = (take (Z.to_nat i) (live v) ++ x :: drop (Z.to_nat i) (live v))%list /\
      num_items v' = (num_items v + 1)%Z
  | (false, v') =>
      v' = v /\ realloc_ok ((num_items v + 1) * 2) = false
  end.
Proof.
  intros Hwf Hi. unfold vector_insert.
  destruct (ensure_space junk v (num_items v + 1) false) as [[] v1] eqn:He.
  2: { by apply ensure_space_fail in He. }
  pose proof Hwf as [Hlen Hnum].
  destruct (ensure_space_ok junk v (num_items v + 1) false v1 Hwf)
    as (Hl & Hmax & Hn & Htake); [lia | done |].
  simpl. rewrite Hn.
  set (n := Z.to_nat (num_items v)). set (k := Z.to_nat i).
  assert (Hk : (k <= n)%nat) by lia.
  assert (Hb1 : (n < length (buffer v1))%nat) by lia.
  assert (Hmm : memmove (buffer v1) (i + 1) i (num_items v - i)
                = (take (S k) (buffer v1) ++ take (n - k) (drop k (buffer v1))
                   ++ drop (S n) (buffer v1))%list).
  { unfold memmove.
    replace (Z.to_nat (i + 1)) with (S k) by lia.
    replace (Z.to_nat (num_items v - i)) with (n - k)%nat by lia.
    replace (S k + (n - k))%nat with (S n) by lia. done. }
  split; [|split]; [| |done].
  - split; simpl; [|lia]. rewrite length_insert, memmove_length; [done|lia..].
  - unfold live. simpl. rewrite Hmm.
    replace (Z.to_nat (num_items v + 1)) with (S n) by lia.
    fold n.
    assert (Hx : is_Some (buffer v1 !! k)) by (apply lookup_lt_is_Some; lia).
    destruct Hx as [y Hy].
    rewrite (take_S_r (buffer v1) k y Hy).
    rewrite <- !app_assoc.
    rewrite insert_app_r_alt by (rewrite length_take; lia).
    rewrite length_take. replace (k - k `min` length (buffer v1))%nat with 0%nat by lia.
    simpl.
    replace (S n) with (k + S (n - k))%nat by lia.
    rewrite take_app_add' by (rewrite length_take; lia).
    simpl. rewrite take_app_length' by (rewrite length_take, length_drop; lia).
    rewrite take_take, skipn_firstn_comm.
    replace (k `min` n)%nat with k by lia.
    rewrite (Htake k) by lia. do 2 f_equal.
    rewrite <- !skipn_firstn_comm. by rewrite (Htake n) by lia.
Qed.

(** X2.  [vector_remove] at an index in use takes that item out and
    keeps the others in their order; the vector stays within its
    bounds, whether or not the buffer is shrunk. *)
Theorem vector_remove_closes_gap v i :
  wf v -> (0 <= i < num_items v)%Z ->
  wf (vector_remove junk v i) /\
  live (vector_remove junk v i) = delete (Z.to_nat i) (live v) /\
  num_items (vector_remove junk v i) = (num_items v - 1)%Z.
Proof. apply vector_remove_live. Qed.

(** X3.  [vector_insert] at an index up to the number of items: when it
    reports success the new item stands at the index, with the items
    before it and the items after it in their order; when it reports
    failure, [realloc] has refused and the vector is as it was. *)
Theorem vector_insert_shifts_or_fails v i x :
  wf v -> (0 <= i <= num_items v)%Z ->
  match vector_insert junk v i x with
  | (true, v') =>
      wf v' /\
      live v' = (take (Z.to_nat i) (live v) ++ x :: drop (Z.to_nat i) (live v))%list /\
      num_items v' = (num_items v + 1)%Z
  | (false, v') =>
      v' = v /\ realloc_ok ((num_items v + 1) * 2) = false
  end.
Proof. apply vector_insert_live. Qed.

End VectorCalls.

Lemma vector_remove_closes_gap_witness :
  Vector.live (@Vector.vector_remove Examples.reliable Z 0%Z Examples.numbers 1)
  = [5; 9]%Z.
Proof.
  destruct (@vector_remove_closes_gap Examples.reliable Z 0%Z
              Examples.numbers 1) as (_ & Hl & _).
  - split; [reflexivity | simpl; lia].
  - simpl. lia.
  - rewrite Hl. reflexivity.
Defined.

Lemma vector_insert_shifts_or_fails_witness :
  Vector.live (snd (@Vector.vector_insert Examples.reliable Z 0%Z
                      Examples.numbers 1 6%Z))
  = [5; 6; 7; 9]%Z.
Proof.
  pose proof (@vector_insert_shifts_or_fails Examples.reliable Z 0%Z
                Examples.numbers 1 6%Z) as Hp.
  assert (Hwf : Vector.wf Examples.numbers)
    by (split; [reflexivity | simpl; lia]).
  assert (Hi : (0 <= 1 <= Vector.num_items Examples.numbers)%Z)
    by (simpl; lia).
  specialize (Hp Hwf Hi).
  destruct (Vector.vector_insert 0%Z Examples.numbers 1 6%Z) as [[] v'] eqn:E.
  - destruct Hp as (_ & Hl & _). simpl. rewrite Hl. reflexivity.
  - vm_compute in E. discriminate E.
Defined.

Section VectorRuns.
Import Vector.
Context `{Allocator} {A : Type} (junk : A).
Implicit Types v : vector_t A.

Lemma vector_new_wf v : vector_new junk = Some v -> wf v /\ num_items v = 0%Z.
Proof.
  unfold vector_new. destruct calloc_ok; [|done]. intros [= <-].
  destruct (ensure_space_wf junk (mk_vector [] 0 0) 8 false) as [Hw Hl];
    [done | simpl; lia |].
  split; [done|]. by rewrite ensure_space_num.
Qed.

Lemma vector_resize_spec v n :
  wf v -> (0 <= n)%Z ->
  match vector_resize junk v n with
  | (true, v') => wf v' /\ num_items v' = n /\
                  take (Z.to_nat (Z.min n (num_items v))) (live v') =
                  take (Z.to_nat (Z.min n (num_items v))) (live v)
  | (false, v') => v' = v /\ realloc_ok (n * 2) = false
  end.
Proof.
  intros Hwf Hn. unfold vector_resize.
  destruct (ensure_space junk v n true) as [[] v1] eqn:He.
  2: { by apply ensure_space_fail in He. }
  pose proof Hwf as [Hlen Hnum].
  destruct (ensure_space_ok junk v n true v1 Hwf) as (Hl & Hmax & Hn1 & Htake);
    [lia | done |].
  split; [split; simpl; [done | lia]|]. split; [done|].
  unfold live. simpl. rewrite !take_take.
  replace (Z.to_nat (n `min` num_items v) `min` Z.to_nat n)%nat
    with (Z.to_nat (n `min` num_items v)) by lia.
  replace (Z.to_nat (n `min` num_items v) `min` Z.to_nat (num_items v))%nat
    with (Z.to_nat (n `min` num_items v)) by lia.
  apply Htake; lia.
Qed.

Lemma vector_clear_spec v :
  wf v -> wf (vector_clear junk v) /\ num_items (vector_clear junk v) = 0%Z.
Proof.
  intros [Hlen Hnum]. unfold vector_clear.
  destruct (ensure_space_wf junk (mk_vector (buffer v) 0 (max_items v)) 8 true)
    as [Hw _]; [split; simpl; [done | lia] | simpl; lia |].
  split; [done|]. by rewrite ensure_space_num.
Qed.

Lemma apply_op_wf v op :
  wf v -> op_in_range v op -> wf (apply_op junk v op).
Proof.
  intros Hwf Hop. destruct op as [x|i x|i x|i|n|n|]; simpl in *.
  - pose proof (vector_push_live junk v x Hwf) as Hp.
    destruct (vector_push junk v x) as [[] v']; simpl.
    + by destruct Hp. + by destruct Hp as [-> _].
  - pose proof (vector_insert_live junk v i x Hwf Hop) as Hp.
    destruct (vector_insert junk v i x) as [[] v']; simpl.
    + by destruct Hp. + by destruct Hp as [-> _].
  - destruct Hwf as [Hlen Hnum]. split; simpl; [|done].
    by rewrite length_insert.
  - by apply vector_remove_live.
  - pose proof (vector_resize_spec v n Hwf Hop) as Hp.
    destruct (vector_resize junk v n) as [[] v']; simpl.
    + by destruct Hp. + by destruct Hp as [-> _].
  - unfold vector_pop.
    assert (Hn : (0 <= num_items v - n)%Z) by lia.
    pose proof (vector_resize_spec v _ Hwf Hn) as Hp.
    destruct (vector_resize junk v (num_items v - n)) as [[] v']; simpl.
    + by destruct Hp. + by destruct Hp as [-> _].
  - by apply vector_clear_spec.
Qed.

(** X4.  Whatever calls are made on a vector from [vector_new], each
    with an index or a size in range for the vector it finds, the buffer
    has [max_items] items and the number in use lies between 0 and that,
    also after calls that failed for want of memory. *)
Theorem vector_ops_keep_bounds v0 ops :
  vector_new junk = Some v0 ->
  ops_in_range junk v0 ops ->
  let v := apply_ops junk v0 ops in
  length (buffer v) = Z.to_nat (max_items v) /\
  (0 <= num_items v <= max_items v)%Z.
Proof.
  intros Hnew Hops. apply vector_new_wf in Hnew as [Hwf _].
  unfold apply_ops. revert v0 Hwf Hops.
  induction ops as [|op ops IH]; intros v0 Hwf Hops; [done|].
  destruct Hops as [Hop Hops]. simpl. apply IH; [|done].
  by apply apply_op_wf.
Qed.

Lemma iter_items_from fuel v iter :
  wf v -> (0 <= iter_pos iter)%Z ->
  (Z.to_nat (num_items v) - Z.to_nat (iter_pos iter) < fuel)%nat ->
  iter_items fuel v iter = drop (Z.to_nat (iter_pos iter)) (live v).
Proof.
  intros [Hlen Hnum]. revert iter.
  induction fuel as [|fuel IH]; intros iter Hp Hf; [lia|].
  simpl. unfold iter_next. fold (iter_pos iter).
  set (p := iter_pos iter) in *.
  destruct (Z.ltb_spec p (num_items v)) as [Hlt|Hge].
  - assert (Hx : is_Some (buffer v !! Z.to_nat p))
      by (apply lookup_lt_is_Some; lia).
    destruct Hx as [x Hx]. rewrite Hx.
    assert (Hlx : live v !! Z.to_nat p = Some x).
    { unfold live. rewrite lookup_take_lt by lia. done. }
    rewrite (drop_S _ x _ Hlx). f_equal.
    set (iter' := mk_iter _ _).
    assert (Hp' : iter_pos iter' = (p + 1)%Z).
    { unfold iter_pos, iter'. simpl.
      destruct (Z.leb_spec (max_items v) 0); [lia|]. done. }
    rewrite IH; rewrite Hp'; [|lia|lia].
    by replace (Z.to_nat (p + 1)) with (S (Z.to_nat p)) by lia.
  - rewrite drop_ge; [done|]. rewrite live_length by done. lia.
Qed.

(** X5.  The loop [iter = vector_enum(v); while (p = iter_next(&iter))]
    meets the items in use, each once and in their order, and then
    stops. *)
Theorem iteration_visits_items_in_order fuel v :
  wf v -> (Z.to_nat (num_items v) < fuel)%nat ->
  iter_items fuel v vector_enum = live v.
Proof.
  intros Hwf Hf. rewrite iter_items_from; [done | done | done |].
  simpl. lia.
Qed.

End VectorRuns.

Lemma vector_ops_keep_bounds_witness :
  length (Vector.buffer
            (@Vector.apply_ops Examples.reliable Z 0%Z Examples.fresh
               Examples.calls))
  = Z.to_nat (Vector.max_items
                (@Vector.apply_ops Examples.reliable Z 0%Z Examples.fresh
                   Examples.calls)) /\
  (0 <= Vector.num_items
          (@Vector.apply_ops Examples.reliable Z 0%Z Examples.fresh
             Examples.calls)
     <= Vector.max_items
          (@Vector.apply_ops Examples.reliable Z 0%Z Examples.fresh
             Examples.calls))%Z.
Proof.
  apply (@vector_ops_keep_bounds Examples.reliable Z 0%Z Examples.fresh
           Examples.calls).
  - reflexivity.
  - vm_compute. repeat split; discriminate.
Defined.

Lemma iteration_visits_items_in_order_witness :
  @Vector.iter_items Z 4 Examples.numbers Vector.vector_enum = [5; 7; 9]%Z.
Proof.
  rewrite (@iteration_visits_items_in_order Z 4 Examples.numbers).
  - reflexivity.
  - split; [reflexivity | simpl; lia].
  - simpl. lia.
Defined.

Section VectorLoops.
Import Vector.
Context `{Allocator} {A : Type} (junk : A).
Implicit Types v : vector_t A.

Lemma iter_remove_if_from fuel (finished : A -> bool) v iter :
  wf v -> (0 <= iter_pos iter)%Z -> index iter = (iter_pos iter - 1)%Z ->
  (Z.to_nat (num_items v) - Z.to_nat (iter_pos iter) < fuel)%nat ->
  exists v',
    iter_remove_if junk fuel finished v iter
      = Some (drop (Z.to_nat (iter_pos iter)) (live v), v') /\
    wf v' /\
    live v' = (take (Z.to_nat (iter_pos iter)) (live v) ++
               filter (fun x => finished x = false)
                      (drop (Z.to_nat (iter_pos iter)) (live v)))%list.
Proof.
  revert v iter.
  induction fuel as [|fuel IH]; intros v iter Hwf Hp Hix Hf; [lia|].
  pose proof Hwf as [Hlen Hnum].
  simpl. unfold iter_next. fold (iter_pos iter).
  set (p := iter_pos iter) in *.
  destruct (Z.ltb_spec p (num_items v)) as [Hlt|Hge].
  - assert (Hx : is_Some (buffer v !! Z.to_nat p))
      by (apply lookup_lt_is_Some; lia).
    destruct Hx as [x Hx]. rewrite Hx.
    assert (Hlx : live v !! Z.to_nat p = Some x).
    { unfold live. rewrite lookup_take_lt by lia. done. }
    rewrite (drop_S _ x _ Hlx).
    destruct (Z.leb_spec (max_items v) 0) as [|_]; [lia|].
    rewrite Hix. replace (p - 1 + 1)%Z with p by lia.
    destruct (finished x) eqn:Hfin.
    + unfold iter_remove. simpl.
      destruct (vector_remove_live junk v p Hwf) as (Hwf2 & Hl2 & Hn2); [lia|].
      set (v2 := vector_remove junk v p) in *.
      set (iter2 := mk_iter _ _).
      assert (Hp2 : iter_pos iter2 = p).
      { unfold iter_pos, iter2. simpl.
        destruct (Z.leb_spec 0 (p - 1)); lia. }
      destruct (IH v2 iter2 Hwf2) as (v' & Hrun & Hwf' & Hl');
        [lia | by rewrite Hp2 | rewrite Hp2; lia |].
      rewrite Hp2 in Hrun, Hl'. rewrite Hrun.
      assert (Hd : drop (Z.to_nat p) (live v2) = drop (S (Z.to_nat p)) (live v)).
      { rewrite Hl2, delete_take_drop, drop_app_length'; [done|].
        rewrite length_take, live_length by done. lia. }
      assert (Ht : take (Z.to_nat p) (live v2) = take (Z.to_nat p) (live v)).
      { rewrite Hl2, delete_take_drop, take_app_length'; [done|].
        rewrite length_take, live_length by done. lia. }
      exists v'. rewrite Hd in *. split; [done|]. split; [done|].
      rewrite Hl', Ht. rewrite filter_cons_False; [done|].
      by rewrite Hfin.
    + set (iter2 := mk_iter _ _).
      assert (Hp2 : iter_pos iter2 = (p + 1)%Z) by done.
      destruct (IH v iter2 Hwf) as (v' & Hrun & Hwf' & Hl');
        [lia | rewrite Hp2; simpl; lia | rewrite Hp2; lia |].
      rewrite Hp2 in Hrun, Hl'.
      replace (Z.to_nat (p + 1)) with (S (Z.to_nat p)) in * by lia.
      rewrite Hrun. exists v'. split; [done|]. split; [done|].
      rewrite Hl', (take_S_r _ _ x Hlx), <- app_assoc.
      rewrite filter_cons_True by done. done.
  - exists v. rewrite drop_ge by (rewrite live_length by done; lia).
    split; [done|]. split; [done|].
    rewrite take_ge by (rewrite live_length by done; lia).
    by rewrite filter_nil, app_nil_r.
Qed.

(** X6.  The loop that removes as it goes,
    [while (p = iter_next(&iter)) if (finished(p)) iter_remove(&iter);],
    still meets every item in use once and in order, and leaves exactly
    the items that were not removed, in their order. *)
Theorem iteration_with_removal fuel (finished : A -> bool) v :
  wf v -> (Z.to_nat (num_items v) < fuel)%nat ->
  exists v',
    iter_remove_if junk fuel finished v vector_enum = Some (live v, v') /\
    live v' = filter (fun x => finished x = false) (live v) /\
    length (buffer v') = Z.to_nat (max_items v') /\
    (0 <= num_items v' <= max_items v')%Z.
Proof.
  intros Hwf Hf.
  destruct (iter_remove_if_from fuel finished v vector_enum Hwf)
    as (v' & Hrun & Hwf' & Hl'); [done | done | simpl; lia |].
  exists v'. done.
Qed.

(** X7.  After a removal a quarter of the buffer is no more than the
    items in use, when [realloc] grants the smaller size: the buffer is
    shrunk as soon as the items fall below a quarter of it. *)
Theorem vector_remove_compacts v i :
  wf v -> (0 <= i < num_items v)%Z ->
  realloc_ok ((num_items v - 1) * 2) = true ->
  (Z.quot (max_items (vector_remove junk v i)) 4
     <= num_items (vector_remove junk v i))%Z.
Proof.
  intros [Hlen Hnum] Hi Hr. unfold vector_remove, ensure_space. simpl.
  set (n := (num_items v - 1)%Z) in *.
  destruct (Z.ltb_spec (max_items v) n); [lia|].
  destruct (Z.ltb_spec n (max_items v `quot` 4)) as [Hq|Hq]; simpl.
  - destruct (Z.eqb_spec (n * 2) (max_items v)) as [He|He]; simpl.
    + rewrite <- He in Hq. 
      assert ((n * 2) `quot` 4 <= n)%Z by (apply Z.quot_le_upper_bound; lia). lia.
    + rewrite Hr. simpl. apply Z.quot_le_upper_bound; lia.
  - rewrite Z.eqb_refl. simpl. lia.
Qed.

End VectorLoops.

Lemma iteration_with_removal_witness :
  exists v',
    @Vector.iter_remove_if Examples.reliable Z 0%Z 4 (Z.eqb 7)
      Examples.numbers Vector.vector_enum
    = Some ([5; 7; 9]%Z, v') /\
    Vector.live v' = [5; 9]%Z.
Proof.
  destruct (@iteration_with_removal Examples.reliable Z 0%Z 4 (Z.eqb 7)
              Examples.numbers) as (v' & Hrun & Hl & _).
  - split; [reflexivity | simpl; lia].
  - simpl. lia.
  - exists v'. split; [exact Hrun|]. rewrite Hl. reflexivity.
Defined.

Lemma vector_remove_compacts_witness :
  (Z.quot (Vector.max_items
             (@Vector.vector_remove Examples.reliable Z 0%Z Examples.sparse 0)) 4
   <= Vector.num_items
        (@Vector.vector_remove Examples.reliable Z 0%Z Examples.sparse 0))%Z.
Proof.
  apply (@vector_remove_compacts Examples.reliable Z 0%Z Examples.sparse 0).
  - split; [reflexivity | simpl; lia].
  - simpl. lia.
  - reflexivity.
Defined.

Section VectorReliable.
Import Vector.
Context `{Allocator} {A : Type} (junk : A).
Hypothesis Hmem : forall n, realloc_ok n = true.
Implicit Types v : vector_t A.

Lemma vector_push_granted v x :
  wf v ->
  wf (snd (vector_push junk v x)) /\
  live (snd (vector_push junk v x)) = (live v ++ [x])%list /\
  num_items (snd (vector_push junk v x)) = (num_items v + 1)%Z.
Proof.
  intros Hwf. pose proof (vector_push_live junk v x Hwf) as Hp.
  destruct (vector_push junk v x) as [[] v']; [done|].
  destruct Hp as [_ Hr]. by rewrite Hmem in Hr.
Qed.

Lemma vector_insert_granted v i x :
  wf v -> (0 <= i <= num_items v)%Z ->
  wf (snd (vector_insert junk v i x)) /\
  live (snd (vector_insert junk v i x))
  = (take (Z.to_nat i) (live v) ++ x :: drop (Z.to_nat i) (live v))%list /\
  num_items (snd (vector_insert junk v i x)) = (num_items v + 1)%Z.
Proof.
  intros Hwf Hi. pose proof (vector_insert_live junk v i x Hwf Hi) as Hp.
  destruct (vector_insert junk v i x) as [[] v']; [done|].
  destruct Hp as [_ Hr]. by rewrite Hmem in Hr.
Qed.

Lemma vector_resize_granted v n :
  wf v -> (0 <= n)%Z ->
  wf (snd (vector_resize junk v n)) /\
  num_items (snd (vector_resize junk v n)) = n /\
  take (Z.to_nat (Z.min n (num_items v))) (live (snd (vector_resize junk v n)))
  = take (Z.to_nat (Z.min n (num_items v))) (live v).
Proof.
  intros Hwf Hn. pose proof (vector_resize_spec junk v n Hwf Hn) as Hp.
  destruct (vector_resize junk v n) as [[] v']; [done|].
  destruct Hp as [_ Hr]. by rewrite Hmem in Hr.
Qed.

Lemma vector_shrink_granted v n :
  wf v -> (0 <= n <= num_items v)%Z ->
  wf (snd (vector_resize junk v n)) /\
  num_items (snd (vector_resize junk v n)) = n /\
  live (snd (vector_resize junk v n)) = take (Z.to_nat n) (live v).
Proof.
  intros Hwf Hn.
  destruct (vector_resize_granted v n Hwf) as (Hw & Hnum & Ht); [lia|].
  split; [done|]. split; [done|].
  replace (n `min` num_items v)%Z with n in Ht by lia.
  rewrite <- Ht. symmetry. apply take_ge.
  rewrite live_length by done. lia.
Qed.

Lemma vector_put_live v i x :
  wf v -> (0 <= i < num_items v)%Z ->
  wf (vector_put v i x) /\
  live (vector_put v i x) = <[Z.to_nat i := x]> (live v) /\
  num_items (vector_put v i x) = num_items v.
Proof.
  intros [Hlen Hnum] Hi. unfold vector_put, live, wf. simpl.
  rewrite length_insert. split; [done|]. split; [|done].
  apply take_insert_lt. lia.
Qed.

Lemma vector_get_live v i :
  wf v -> (0 <= i < num_items v)%Z ->
  vector_get v i = live v !! Z.to_nat i.
Proof.
  intros [Hlen Hnum] Hi. unfold vector_get, live.
  destruct (Z.ltb_spec i 0); [lia|]. by rewrite lookup_take_lt by lia.
Qed.

(** X20.  [vector_dup] of a vector within its bounds gives a vector within
    its bounds that holds the same items in the same order, when memory
    does not run out. *)
Theorem vector_dup_copies v :
  calloc_ok = true -> wf v ->
  exists copy,
    vector_dup junk v = Some copy /\
    wf copy /\ live copy = live v /\ num_items copy = num_items v.
Proof.
  intros Hc Hwf. pose proof Hwf as [Hlen Hnum]. unfold vector_dup.
  destruct (vector_new junk) as [v0|] eqn:Hnew.
  2: { unfold vector_new in Hnew. by rewrite Hc in Hnew. }
  apply vector_new_wf in Hnew as [Hwf0 Hn0].
  destruct (ensure_space junk v0 (num_items v) false) as [ok v1] eqn:He.
  destruct ok.
  2: { apply ensure_space_fail in He as [_ Hr]. by rewrite Hmem in Hr. }
  destruct (ensure_space_ok junk v0 (num_items v) false v1 Hwf0)
    as (Hl1 & Hmax1 & Hn1 & _); [lia | done |].
  eexists. split; [done|]. simpl.
  assert (Htake : length (take (Z.to_nat (num_items v)) (buffer v))
                  = Z.to_nat (num_items v)) by (rewrite length_take; lia).
  split; [|split; [|done]].
  - split; simpl; [|lia].
    rewrite length_app, Htake, length_drop. lia.
  - unfold live. simpl. by rewrite take_app_length' by done.
Qed.

End VectorReliable.

Lemma vector_dup_copies_witness :
  exists copy,
    @Vector.vector_dup Examples.reliable Z 0%Z Examples.numbers = Some copy /\
    Vector.live copy = [5; 7; 9]%Z.
Proof.
  destruct (@vector_dup_copies Examples.reliable Z 0%Z (fun _ => eq_refl)
              Examples.numbers) as (copy & Hdup & _ & Hlive & _).
  - reflexivity.
  - split; [reflexivity | simpl; lia].
  - exists copy. split; [exact Hdup|]. rewrite Hlive. reflexivity.
Defined.

(** ** SphereFS (fs.c) *)

Section FsFacts.

Lemma insert_hop_first (p : path_t) (name : string) :
  path_hop (path_insert_hop p 0 name) 0 = name.
Proof. done. Qed.

Lemma full_path_from_none_prefixed (filename : string) :
  path_is_rooted (path_new filename) = false ->
  is_prefix_hop (path_hop (fs_full_path_from None filename) 0) = true.
Proof.
  intros Hr. unfold fs_full_path_from. rewrite Hr. cbv zeta.
  set (prefix := if (0 <? path_num_hops (path_new filename))%nat
                 then path_hop (path_new filename) 0 else "").
  destruct (is_prefix_hop prefix) eqn:Hp; cbn [negb]; cbv beta iota zeta;
    rewrite insert_hop_first; [done|].
  by rewrite !insert_hop_first.
Qed.

(** X8.  Whatever is not a platform-absolute name gets a full path that
    starts with one of the prefixes [@], [#], [~] and [$], also when it
    is taken relative to a base directory that is not absolute
    itself. *)
Theorem fs_full_path_prefixed (filename : string) (base_dir_name : option string) :
  path_is_rooted (path_new filename) = false ->
  match base_dir_name with
  | Some b => path_is_rooted (path_new b) = false
  | None => True
  end ->
  is_prefix_hop (path_hop (fs_full_path filename base_dir_name) 0) = true.
Proof.
  intros Hr Hb. destruct base_dir_name as [b|]; simpl;
    [|by apply full_path_from_none_prefixed].
  unfold fs_full_path. simpl.
  pose proof (full_path_from_none_prefixed b Hb) as Hbase.
  set (base := fs_full_path_from None b) in *.
  unfold fs_full_path_from at 1. rewrite Hr. cbv zeta.
  set (prefix := if (0 <? path_num_hops (path_new filename))%nat
                 then path_hop (path_new filename) 0 else "").
  destruct (is_prefix_hop prefix) eqn:Hp; cbn [negb]; cbv beta iota zeta;
    rewrite insert_hop_first; [done|].
  unfold path_hop, path_rebase, path_to_dir in *. simpl.
  destruct (hops base) as [|h t]; [done|]. done.
Qed.


Lemma resolve_rooted (fs : fs_t) (filename : string) :
  path_is_rooted (path_new filename) = true -> resolve fs filename = None.
Proof. intros Hr. unfold resolve, resolve_path. by rewrite Hr. Qed.

(** X9.  No call of the file layer reaches the file system under a
    platform-absolute name: each one fails and leaves everything as it
    was. *)
Theorem fs_refuses_absolute_names (fs : fs_t) (w : world)
    (filename other data mode : string) (overwrite : bool) :
  path_is_rooted (path_new filename) = true ->
  fs_stat fs w filename = None /\
  fs_fexist fs w filename = false /\
  fs_dir_exists fs w filename = false /\
  fs_fslurp fs w filename = None /\
  fs_fopen fs w filename mode = (None, w) /\
  fs_fspew fs w filename data = (false, w) /\
  fs_unlink fs w filename = ((-1)%Z, w) /\
  fs_utime fs w filename = ((-1)%Z, w) /\
  fs_mkdir fs w filename = ((-1)%Z, w) /\
  fs_fcopy fs w filename other overwrite = ((-1)%Z, w) /\
  fs_fcopy fs w other filename overwrite = ((-1)%Z, w).
Proof.
  intros Hr%(resolve_rooted fs).
  unfold fs_fexist, fs_dir_exists, fs_stat, fs_fslurp, fs_fopen, fs_fspew,
    fs_unlink, fs_utime, fs_mkdir, fs_fcopy.
  rewrite Hr. repeat split. by destruct (resolve fs other).
Qed.


End FsFacts.

Lemma fs_full_path_prefixed_witness :
  is_prefix_hop (path_hop (fs_full_path "scripts/main.js" (Some "@/")) 0) = true.
Proof.
  apply (fs_full_path_prefixed "scripts/main.js" (Some "@/")).
  - reflexivity.
  - reflexivity.
Defined.

Lemma fs_refuses_absolute_names_witness :
  fs_fspew Sample.fs0 Sample.world_lib "/etc/motd" "hello"
  = (false, Sample.world_lib) /\
  fs_unlink Sample.fs0 Sample.world_lib "/etc/motd" = ((-1)%Z, Sample.world_lib).
Proof.
  destruct (fs_refuses_absolute_names Sample.fs0 Sample.world_lib
              "/etc/motd" "$/a.txt" "hello" "rb" true)
    as (_ & _ & _ & _ & _ & Hspew & Hunlink & _).
  - reflexivity.
  - split; [exact Hspew | exact Hunlink].
Defined.

(** ** References and the life of a tool (utility.c, tool.c) *)

Section RefFacts.

Lemma ref_times (refs : gmap Z (Z * Z)) (p : Z) (n : nat) :
  refs !! p = None ->
  Nat.iter (S n) (fun r => duk_ref_heapptr r p) refs
  = <[p := (Z.of_nat (S n), p)]> refs.
Proof.
  intros Hp. induction n as [|n IH].
  - simpl. unfold duk_ref_heapptr. by rewrite Hp.
  - change (Nat.iter (S (S n)) ?f ?x) with (f (Nat.iter (S n) f x)).
    rewrite IH. unfold duk_ref_heapptr. rewrite lookup_insert_eq.
    rewrite insert_insert_eq. do 2 f_equal. lia.
Qed.

Lemma unref_times (refs : gmap Z (Z * Z)) (p v : Z) (n m : nat) :
  refs !! p = None ->
  Nat.iter m (fun r => duk_unref_heapptr r p) (<[p := (Z.of_nat (S n), v)]> refs)
  = if (m <=? n)%nat then <[p := (Z.of_nat (S n - m), v)]> refs else refs.
Proof.
  intros Hp. induction m as [|m IH].
  - done.
  - change (Nat.iter (S m) ?f ?x) with (f (Nat.iter m f x)). rewrite IH.
    destruct (Nat.leb_spec m n) as [Hle|Hgt].
    + unfold duk_unref_heapptr. rewrite lookup_insert_eq.
      destruct (Nat.leb_spec (S m) n) as [Hle'|Hgt'].
      * destruct (Z.ltb_spec 0 (Z.of_nat (S n - m) - 1)); [|lia].
        rewrite insert_insert_eq. do 2 f_equal. lia.
      * destruct (Z.ltb_spec 0 (Z.of_nat (S n - m) - 1)); [lia|].
        rewrite delete_insert_eq. by apply delete_id.
    + destruct (Nat.leb_spec (S m) n); [lia|].
      unfold duk_unref_heapptr. by rewrite Hp.
Qed.

(** X11.  An object that the table does not hold is in it after [n] references
    and [m] releases exactly when [m < n], under the count [n - m]; the
    rest of the table is as it was, and releases beyond the references
    taken do nothing. *)
Theorem refs_count_outstanding (refs : gmap Z (Z * Z)) (p : Z) (n m : nat) :
  refs !! p = None ->
  Nat.iter m (fun r => duk_unref_heapptr r p)
    (Nat.iter n (fun r => duk_ref_heapptr r p) refs)
  = if (m <? n)%nat then <[p := (Z.of_nat (n - m), p)]> refs else refs.
Proof.
  intros Hp. destruct n as [|n].
  - simpl. induction m as [|m IH]; [done|].
    change (Nat.iter (S m) ?f ?x) with (f (Nat.iter m f x)). rewrite IH.
    unfold duk_unref_heapptr. by rewrite Hp.
  - rewrite ref_times, unref_times by done.
    destruct (Nat.leb_spec m n), (Nat.ltb_spec m (S n)); try lia; done.
Qed.

Lemma tool_ref_times (t : tool_mem) (k : nat) :
  (0 <= refcount t)%Z -> (refcount t + Z.of_nat k <= UINT_MAX)%Z ->
  Nat.iter k tool_ref (Some t)
  = Some (mk_tool_mem (refcount t + Z.of_nat k) (callback_ptr t) (tool_verb t)).
Proof.
  intros H0 Hk. induction k as [|k IH].
  - simpl. destruct t. simpl. do 2 f_equal. lia.
  - change (Nat.iter (S k) ?f ?x) with (f (Nat.iter k f x)).
    rewrite IH by lia. simpl. do 2 f_equal.
    unfold UINT_MAX in *. rewrite Z.mod_small by lia. lia.
Qed.

(** X12.  A tool that has been referenced [k] more times after [tool_new]
    lives through [k] releases, which leave the table of references
    alone, and is freed by the next one, which gives up its hold on the
    callback. *)
Theorem tool_released_with_last_reference (refs : gmap Z (Z * Z)) (p : Z)
    (verb : string) (k j : nat) :
  (Z.of_nat k + 1 <= UINT_MAX)%Z -> (j <= k)%nat ->
  let '(tool, refs1) := tool_new refs p verb in
  let after := Nat.iter j (fun st => tool_unref (fst st) (snd st))
                 (Nat.iter k tool_ref tool, refs1) in
  after = (Some (mk_tool_mem (Z.of_nat (k + 1 - j)) p verb), refs1) /\
  (j = k ->
   tool_unref (fst after) (snd after) = (None, duk_unref_heapptr refs1 p)).
Proof.
  intros Hk Hj. unfold tool_new.
  set (refs1 := duk_ref_heapptr refs p).
  assert (Hnew : tool_ref (Some (mk_tool_mem 0 p verb))
                 = Some (mk_tool_mem 1 p verb)) by done.
  rewrite Hnew.
  rewrite (tool_ref_times (mk_tool_mem 1 p verb) k) by (simpl; lia). simpl.
  assert (Hiter : forall j, (j <= k)%nat ->
            Nat.iter j (fun st => tool_unref (fst st) (snd st))
              (Some (mk_tool_mem (1 + Z.of_nat k) p verb), refs1)
            = (Some (mk_tool_mem (Z.of_nat (k + 1 - j)) p verb), refs1)).
  { clear j Hj. intros j Hj. induction j as [|j IH].
    - simpl. do 3 f_equal. lia.
    - change (Nat.iter (S j) ?f ?x) with (f (Nat.iter j f x)).
      rewrite IH by lia. simpl.
      unfold UINT_MAX in *. rewrite Z.mod_small by lia.
      destruct (Z.ltb_spec 0 (Z.of_nat (k + 1 - j) - 1)); [|lia].
      do 3 f_equal. lia. }
  rewrite Hiter by done. split; [done|]. intros ->. simpl.
  replace (Z.of_nat (k + 1 - k) - 1)%Z with 0%Z by lia. done.
Qed.

End RefFacts.

Lemma refs_count_outstanding_witness :
  Nat.iter 2 (fun r => duk_unref_heapptr r 64)
    (Nat.iter 3 (fun r => duk_ref_heapptr r 64) ∅)
  = <[64%Z := (1%Z, 64%Z)]> ∅.
Proof.
  apply (refs_count_outstanding ∅ 64 3 2). reflexivity.
Defined.

Lemma tool_released_with_last_reference_witness :
  Nat.iter 2 (fun st => tool_unref (fst st) (snd st))
    (Nat.iter 2 tool_ref (fst (tool_new ∅ 64 "compiling")),
     snd (tool_new ∅ 64 "compiling"))
  = (Some (mk_tool_mem 1 64 "compiling"), snd (tool_new ∅ 64 "compiling")).
Proof.
  pose proof (tool_released_with_last_reference ∅ 64 "compiling" 2 2) as Hl.
  cbv zeta in Hl. simpl tool_new in Hl.
  destruct Hl as [Hl _].
  - unfold UINT_MAX. lia.
  - lia.
  - exact Hl.
Defined.

(** ** The build driver (build.c) *)

Section ConflictExact.
Context {target_t : Type} `{Targets target_t}.

Lemma nat_of_ascii_inj (c d : ascii) : nat_of_ascii c = nat_of_ascii d -> c = d.
Proof.
  intros Hcd. rewrite <- (ascii_nat_embedding c), <- (ascii_nat_embedding d).
  congruence.
Qed.

Lemma nat_of_ascii_pos (c : ascii) :
  Ascii.eqb c Ascii.zero = false -> (0 < Z.of_nat (nat_of_ascii c))%Z.
Proof.
  intros Hc. destruct (nat_of_ascii c) eqn:Hn; [|lia].
  apply Ascii.eqb_neq in Hc. exfalso. apply Hc.
  apply nat_of_ascii_inj. by rewrite Hn.
Qed.

Lemma strcmp_eq (a b : string) :
  is_cstring a = true -> is_cstring b = true -> strcmp a b = 0%Z <-> a = b.
Proof.
  intros Ha Hb. split; [|intros ->; apply strcmp_refl].
  revert b Ha Hb. induction a as [|c a IH]; intros [|d b]; simpl; try done.
  - intros _ [Hd _]%andb_prop. apply negb_true_iff, nat_of_ascii_pos in Hd. lia.
  - intros [Hc _]%andb_prop _. apply negb_true_iff, nat_of_ascii_pos in Hc. lia.
  - intros [_ Ha]%andb_prop [_ Hb]%andb_prop.
    destruct (Ascii.eqb_spec c d) as [->|Hne].
    + intros Hs. by rewrite (IH b Ha Hb Hs).
    + intros Hz. exfalso. apply Hne, nat_of_ascii_inj. lia.
Qed.

Lemma strcmp_flip (a b : string) : strcmp b a = (- strcmp a b)%Z.
Proof.
  revert b. induction a as [|c a IH]; intros [|d b]; simpl; try lia.
  rewrite (Ascii.eqb_sym d c). destruct (Ascii.eqb c d); [apply IH | lia].
Qed.

Lemma strcmp_trans (a b c : string) :
  is_cstring a = true -> is_cstring b = true -> is_cstring c = true ->
  (strcmp a b <= 0)%Z -> (strcmp b c <= 0)%Z -> (strcmp a c <= 0)%Z.
Proof.
  revert b c. induction a as [|x a IH]; intros [|y b] [|z c] Ha Hb Hc;
    simpl in *; try lia;
    repeat match goal with
           | H : _ && _ = true |- _ => apply andb_prop in H as [? ?]
           | H : negb (Ascii.eqb _ _) = true |- _ =>
               apply negb_true_iff, nat_of_ascii_pos in H
           end; try lia.
  destruct (Ascii.eqb_spec x y) as [->|Hxy].
  - destruct (Ascii.eqb_spec y z) as [->|Hyz]; [by apply IH | done].
  - destruct (Ascii.eqb_spec y z) as [->|Hyz].
    + destruct (Ascii.eqb_spec x z) as [->|_]; done.
    + destruct (Ascii.eqb_spec x z) as [->|_]; [|lia].
      intros Hxy' Hyz'. exfalso. apply Hxy, nat_of_ascii_inj. lia.
Qed.

Lemma strcmp_empty (a : string) : (strcmp "" a <= 0)%Z.
Proof. destruct a; simpl; lia. Qed.



Lemma sort_insert_perm (t : target_t) (l : list target_t) :
  sort_insert t l ≡ₚ t :: l.
Proof.
  induction l as [|u l IH]; [done|]. simpl.
  destruct (_ <=? _)%Z; [done|]. rewrite IH. apply Permutation_swap.
Qed.

Lemma vector_sort_perm (l : list target_t) : vector_sort l ≡ₚ l.
Proof.
  induction l as [|t l IH]; [done|]. unfold vector_sort in *. simpl.
  by rewrite sort_insert_perm, IH.
Qed.

Lemma sort_insert_sorted (t : target_t) (l : list target_t) :
  is_cstring (path_cstr (target_path t)) = true ->
  Forall (fun u => is_cstring (path_cstr (target_path u)) = true) l ->
  StronglySorted (fun a b => (sort_targets_by_path a b <= 0)%Z) l -> StronglySorted (fun a b => (sort_targets_by_path a b <= 0)%Z) (sort_insert t l).
Proof.
  intros Ht Hl Hs. induction Hs as [|u l Hs IH Hu]; simpl.
  - by repeat constructor.
  - apply Forall_cons in Hl as [Hcu Hl].
    destruct (Z.leb_spec (sort_targets_by_path t u) 0) as [Hle|Hgt].
    + constructor; [by constructor|]. constructor; [done|].
      rewrite Forall_forall in Hu, Hl |- *. intros v Hv.
      unfold sort_targets_by_path in *.
      apply (strcmp_trans _ (path_cstr (target_path u))); auto.
    + constructor; [by apply IH|].
      rewrite (sort_insert_perm t l). constructor; [|done].
      unfold sort_targets_by_path in *. rewrite strcmp_flip. lia.
Qed.

Lemma vector_sort_sorted (l : list target_t) :
  Forall (fun u => is_cstring (path_cstr (target_path u)) = true) l ->
  StronglySorted (fun a b => (sort_targets_by_path a b <= 0)%Z) (vector_sort l).
Proof.
  induction l as [|t l IH]; intros Hl; [constructor|].
  apply Forall_cons in Hl as [Ht Hl]. unfold vector_sort in *. simpl.
  apply sort_insert_sorted; [done | | by apply IH].
  fold (vector_sort l). by rewrite vector_sort_perm.
Qed.


Lemma conflict_tail_grows (names : list string) (st : string * nat * world) :
  let '(_, _, w) := st in
  let '(last, n, w') := fold_left conflict_step names st in
  (visor_num_errors w <= visor_num_errors w')%nat.
Proof.
  revert st. induction names as [|f names IH]; intros [[last n] w];
    [simpl; lia|].
  rewrite conflict_fold_cons. unfold conflict_step at 2.
  destruct (_ =? _)%Z.
  - apply (IH (f, S n, w)).
  - pose proof (IH (f, 1%nat, if (1 <? n)%nat
                               then visor_error w (conflict_message n f)
                               else w)) as IH'.
    destruct (fold_left _ _ _) as [[l' n'] w']. 
    destruct (1 <? n)%nat; [|done].
    unfold visor_num_errors, visor_error in *. simpl in *.
    rewrite length_app in IH'. simpl in IH'. lia.
Qed.

Lemma detect_from_exact (names : list string) (last : string) (n : nat)
    (w : world) :
  (1 <= n)%nat ->
  Forall (fun s => is_cstring s = true) (last :: names) ->
  StronglySorted (fun a b => (strcmp a b <= 0)%Z) (last :: names) ->
  let '(l', n', w') := fold_left conflict_step names (last, n, w) in
  visor_num_errors (if (1 <? n')%nat
             then visor_error w' (conflict_message n' l') else w')
    = visor_num_errors w
  <-> n = 1%nat /\ NoDup (last :: names).
Proof.
  revert last n w. induction names as [|f names IH]; intros last n w Hn Hc Hs.
  - simpl. destruct (Nat.ltb_spec 1 n).
    + unfold visor_num_errors, visor_error. simpl. rewrite length_app. simpl.
      split; [lia|]. intros [? _]. lia.
    + split; [|done]. intros _. split; [lia|]. apply NoDup_singleton.
  - rewrite conflict_fold_cons.
    apply Forall_cons in Hc as [Hcl Hc]. pose proof Hc as Hc'.
    apply Forall_cons in Hc' as [Hcf Hcn].
    apply StronglySorted_inv in Hs as [Hs Hlast].
    pose proof Hs as Hs'. apply StronglySorted_inv in Hs' as [_ Hf].
    destruct (decide (f = last)) as [->|Hne].
    + rewrite conflict_step_same.
      specialize (IH last (S n) w ltac:(lia) Hc Hs).
      destruct (fold_left _ _ _) as [[l' n'] w'].
      rewrite IH. split; [lia|]. intros [_ Hnd].
      apply NoDup_cons in Hnd as [Hin _]. exfalso. apply Hin. by left.
    + rewrite conflict_step_other by (by rewrite strcmp_eq).
      set (w1 := if (1 <? n)%nat then _ else w).
      specialize (IH f 1%nat w1 ltac:(lia) Hc Hs).
      pose proof (conflict_tail_grows names (f, 1%nat, w1)) as Hg.
      simpl in Hg.
      destruct (fold_left _ _ _) as [[l' n'] w'].
      assert (Hfresh : last ∉ f :: names).
      { intros [->|Hin]%elem_of_cons; [done|].
        rewrite Forall_forall in Hf, Hlast.
        apply Hne. apply strcmp_eq; [done..|].
        assert (strcmp f last <= 0)%Z by (by apply Hf).
        assert (strcmp last f <= 0)%Z by (apply Hlast; by left).
        rewrite strcmp_flip in H1. lia. }
      destruct (Nat.ltb_spec 1 n) as [Hbig|Hone].
      * split; [|intros [? _]; lia]. intros Heq. exfalso.
        assert (visor_num_errors w1 = S (visor_num_errors w)).
        { unfold w1, visor_num_errors, visor_error. simpl.
          rewrite length_app. simpl. lia. }
        assert (visor_num_errors w' <= visor_num_errors
                  (if (1 <? n')%nat
                   then visor_error w' (conflict_message n' l') else w'))%nat.
        { destruct (1 <? n')%nat; [|done].
          unfold visor_num_errors, visor_error. simpl.
          rewrite length_app. simpl. lia. }
        lia.
      * subst w1. rewrite IH. rewrite (NoDup_cons last). 
        split; [intros [_ Hnd]; split; [lia|done] | intros [_ [_ Hnd]]; done].
Qed.

(** X13.  The conflict check adds no error exactly when no two targets have
    the same path name and none has the empty one. *)
Theorem conflict_detection_exact (ts : list target_t) (w : world) :
  Forall (fun t => is_cstring (path_cstr (target_path t)) = true) ts ->
  visor_num_errors
    (detect_conflicts
       (map (fun t => path_cstr (target_path t)) (vector_sort ts)) w)
    = visor_num_errors w
  <-> NoDup ("" :: map (fun t => path_cstr (target_path t)) ts).
Proof.
  intros Hc. unfold detect_conflicts.
  set (names := map (fun t => path_cstr (target_path t)) (vector_sort ts)).
  assert (Hcs : Forall (fun s => is_cstring s = true) ("" :: names)).
  { constructor; [done|]. unfold names. rewrite Forall_map.
    by rewrite vector_sort_perm. }
  assert (Hs : StronglySorted (fun a b => (strcmp a b <= 0)%Z) ("" :: names)).
  { constructor.
    - unfold names. generalize (vector_sort_sorted ts Hc).
      generalize (vector_sort ts). intros l Hs.
      induction Hs as [|u l Hs IH Hu]; simpl; constructor; [done|].
      by rewrite Forall_map.
    - apply Forall_forall. intros s _. apply strcmp_empty. }
  pose proof (detect_from_exact names "" 1%nat w ltac:(lia) Hcs Hs) as Hx.
  destruct (fold_left _ _ _) as [[l' n'] w'].
  rewrite Hx. unfold names.
  split.
  - intros [_ Hnd]. revert Hnd. apply NoDup_Permutation_proper.
    by rewrite vector_sort_perm.
  - intros Hnd. split; [done|]. revert Hnd. apply NoDup_Permutation_proper.
    by rewrite vector_sort_perm.
Qed.

End ConflictExact.

Lemma conflict_detection_exact_witness :
  visor_num_errors
    (detect_conflicts
       (map (fun t => path_cstr (target_path t))
            (vector_sort [Sample.mk_sample "@/b.txt" false;
                          Sample.mk_sample "@/a.txt" false]))
       Sample.world_lib)
  = visor_num_errors Sample.world_lib.
Proof.
  apply (conflict_detection_exact
           [Sample.mk_sample "@/b.txt" false; Sample.mk_sample "@/a.txt" false]
           Sample.world_lib).
  - repeat constructor.
  - apply (bool_decide_unpack _). vm_compute. exact I.
Defined.

Section CleanFacts.
Context {target_t : Type}.

Lemma visor_scope_closes (w : world) (msg : string) (f : gmap string node) :
  visor_end_op (set_files (visor_begin_op w msg) f) = set_files w f.
Proof. by destruct w as [fl c [ops e wa p fn] j]. Qed.

Lemma fs_unlink_files (fs : fs_t) (w : world) (a : string) :
  snd (fs_unlink fs w a)
  = set_files w
      (match resolve fs a with
       | Some r => match files w !! r with
                   | Some (File _ _) => delete r (files w)
                   | _ => files w
                   end
       | None => files w
       end).
Proof.
  unfold fs_unlink, c_unlink. destruct w as [fl c v j]. simpl.
  destruct (resolve fs a) as [r|]; [|done]. simpl.
  by destruct (fl !! r) as [[]|].
Qed.

Lemma fs_unlink_lookup (fs : fs_t) (w : world) (a k : string) :
  files (snd (fs_unlink fs w a)) !! k
  = match files w !! k with
    | Some (File c t) =>
        if bool_decide (resolve fs a = Some k) then None else Some (File c t)
    | other => other
    end.
Proof.
  rewrite fs_unlink_files. simpl.
  destruct (resolve fs a) as [r|] eqn:Hr.
  - destruct (decide (r = k)) as [->|Hne].
    + rewrite bool_decide_eq_true_2 by done.
      destruct (files w !! k) as [[c t|t]|] eqn:Hk; rewrite ?Hk; try done.
      by rewrite lookup_delete_eq.
    + rewrite bool_decide_eq_false_2 by congruence.
      destruct (files w !! r) as [[c t|t]|] eqn:Hk.
      * rewrite lookup_delete_ne by done. by destruct (files w !! k) as [[]|].
      * by destruct (files w !! k) as [[]|].
      * by destruct (files w !! k) as [[]|].
  - rewrite bool_decide_eq_false_2 by done. by destruct (files w !! k) as [[]|].
Qed.

Lemma clean_fold (fs : fs_t) (keep : string -> bool) (arts : list string)
    (w : world) :
  let w' :=
    fold_left
      (fun w artifact =>
         if negb (keep artifact) then
           visor_end_op
             (snd (fs_unlink fs
                     (visor_begin_op w ("removing '" +:+ artifact +:+ "'"))
                     artifact))
         else w) arts w in
  visor w' = visor w /\ clock w' = clock w /\ js w' = js w /\
  forall k,
    files w' !! k
    = match files w !! k with
      | Some (File c t) =>
          if bool_decide
               (Some k ∈ map (resolve fs)
                             (filter (fun a => keep a = false) arts))
          then None else Some (File c t)
      | other => other
      end.
Proof.
  revert w. induction arts as [|a arts IH]; intros w; simpl.
  - repeat split. intros k. by destruct (files w !! k) as [[c t|t]|].
  - destruct (keep a) eqn:Hk; simpl.
    + rewrite filter_cons_False by (by rewrite Hk). apply IH.
    + rewrite filter_cons_True by done.
      set (w1 := visor_end_op _).
      assert (Hw1 : w1 = set_files w (files (snd (fs_unlink fs w a)))).
      { unfold w1. rewrite fs_unlink_files.
        rewrite visor_scope_closes. by rewrite fs_unlink_files. }
      destruct (IH w1) as (Hv & Hc & Hj & Hf).
      repeat split; [by rewrite Hv, Hw1 | by rewrite Hc, Hw1
                    | by rewrite Hj, Hw1 |].
      intros k. rewrite Hf, Hw1.
      simpl files. rewrite fs_unlink_lookup. simpl.
      destruct (files w !! k) as [[c t|t]|]; try done.
      destruct (decide (resolve fs a = Some k)) as [Ha|Ha].
      * rewrite bool_decide_eq_true_2 by done.
        rewrite bool_decide_eq_true_2; [done|]. rewrite Ha. by left.
      * rewrite bool_decide_eq_false_2 by done.
        match goal with
        | |- (if bool_decide ?P then _ else _)
             = (if bool_decide ?Q then _ else _) =>
            rewrite (bool_decide_ext P Q); [done|]
        end.
        rewrite elem_of_cons. split; [by right|].
        by intros [Heq|Hin]; [destruct Ha|].
Qed.

Lemma clean_old_artifacts_files (build : build_t target_t) (keep_targets : bool)
    (w : world) :
  let w' := clean_old_artifacts build keep_targets w in
  let stale :=
    filter (fun a => keep_targets && existsb (String.eqb a) (visor_filenames w)
                     = false)
           (artifacts build) in
  visor w' = visor w /\ clock w' = clock w /\ js w' = js w /\
  forall k,
    files w' !! k
    = match files w !! k with
      | Some (File c t) =>
          if bool_decide (Some k ∈ map (resolve (fs build)) stale)
          then None else Some (File c t)
      | other => other
      end.
Proof.
  unfold clean_old_artifacts.
  set (w0 := visor_begin_op w _).
  pose proof (clean_fold (fs build)
                (fun a => keep_targets && existsb (String.eqb a) (visor_filenames w0))
                (artifacts build) w0) as Hf.
  cbv zeta in Hf |- *.
  match goal with
  | |- context [visor_end_op ?x] => set (w1 := x) in *
  end.
  destruct Hf as (Hv & Hc & Hj & Hf).
  assert (Hw : visor_end_op w1 = set_files w (files w1)).
  { destruct w1 as [f1 c1 v1 j1]. simpl in *. subst.
    by destruct w as [fl c [ops e wa p fn] j]. }
  rewrite Hw. simpl. split; [|split; [|split]].
  - done.
  - done.
  - done.
  - intros k. by rewrite Hf.
Qed.

(** X14.  [clean_old_artifacts] removes the regular files that the
    artifacts of the last build name, less those the visor lists for
    this build when they are to be kept, and nothing else: directories
    and all other files stay, and the visor, with its errors and
    warnings, is as it was. *)
Theorem clean_old_artifacts_exact (build : build_t target_t) (keep_targets : bool)
    (w : world) :
  let w' := clean_old_artifacts build keep_targets w in
  let stale :=
    filter (fun a => keep_targets && existsb (String.eqb a) (visor_filenames w)
                     = false)
           (artifacts build) in
  visor w' = visor w /\ clock w' = clock w /\ js w' = js w /\
  forall k,
    files w' !! k
    = match files w !! k with
      | Some (File c t) =>
          if bool_decide (Some k ∈ map (resolve (fs build)) stale)
          then None else Some (File c t)
      | other => other
      end.
Proof. apply clean_old_artifacts_files. Qed.

End CleanFacts.
Section CleanRuns.
Context {target_t : Type}.

Lemma fs_fexist_lookup (fs : fs_t) (w : world) (a : string) :
  fs_fexist fs w a
  = match resolve fs a with
    | Some r => match files w !! r with
                | Some (File _ _) => true
                | _ => false
                end
    | None => false
    end.
Proof.
  unfold fs_fexist, fs_stat. destruct (resolve fs a) as [r|]; [|done].
  by destruct (files w !! r) as [[]|].
Qed.

(** X15.  After [build_clean] none of the artifacts of the last build is a
    file any more, nor is [@/artifacts.json]; the call reports success
    and says nothing to the visor. *)
Theorem build_clean_removes_artifacts (build : build_t target_t) (w : world) :
  let '(ok, w') := build_clean build w in
  ok = true /\ visor w' = visor w /\
  Forall (fun a => fs_fexist (fs build) w' a = false)
         ("@/artifacts.json" :: artifacts build).
Proof.
  unfold build_clean.
  destruct (clean_old_artifacts_files build false w) as (Hv & Hc & Hj & Hf).
  cbv zeta in *. set (w1 := clean_old_artifacts build false w) in *.
  split; [done|]. split.
  { rewrite fs_unlink_files. simpl. done. }
  apply Forall_forall. intros a Ha.
  rewrite fs_fexist_lookup. destruct (resolve (fs build) a) as [r|] eqn:Hr; [|done].
  rewrite fs_unlink_lookup.
  apply elem_of_cons in Ha as [->|Ha].
  - rewrite Hr. rewrite bool_decide_eq_true_2 by done.
    by destruct (files w1 !! r) as [[]|].
  - rewrite Hf. simpl.
    destruct (files w !! r) as [[c t|t]|]; try done.
    rewrite bool_decide_eq_true_2; [done|].
    rewrite <- Hr. apply list_elem_of_In, in_map, list_elem_of_In.
    by apply list_elem_of_filter.
Qed.

End CleanRuns.

(** X16.  [FS.deleteFile] throws exactly when the name was a file of the
    project, which it has then removed; when it returns there was no
    such file and nothing has changed. *)
Theorem js_FS_deleteFile_outcomes (fs : fs_t) (filename : string) (w : world) :
  let '(res, w') := js_FS_deleteFile fs filename w in
  fs_fexist fs w' filename = false /\
  match res with
  | Err e =>
      fs_fexist fs w filename = true /\
      e = duk_error_blame DUK_ERR_ERROR "unable to delete file"
  | Ok _ => fs_fexist fs w filename = false /\ w' = w
  end.
Proof.
  unfold js_FS_deleteFile, fs_unlink, c_unlink.
  destruct (resolve fs filename) as [r|] eqn:Hr; simpl.
  2: { rewrite !fs_fexist_lookup, Hr. done. }
  destruct (files w !! r) as [[c t|t]|] eqn:Hf; simpl;
    rewrite !fs_fexist_lookup, ?Hr; simpl; rewrite ?Hf; try done.
  by rewrite lookup_delete_eq.
Qed.
Section RunFacts.
Context `{Engine} {target_t : Type} `{Targets target_t}.

Lemma resolve_artifacts_json (fs : fs_t) :
  resolve fs "@/artifacts.json"
  = Some (String.concat "/" (hops (game_path fs) ++ ["artifacts.json"])%list).
Proof. done. Qed.

Lemma resolve_sources_json (fs : fs_t) :
  resolve fs "@/sources.json"
  = Some (String.concat "/" (hops (game_path fs) ++ ["sources.json"])%list).
Proof. done. Qed.

Lemma append_inj_r (a b c : string) : a +:+ b = a +:+ c -> b = c.
Proof. induction a as [|x a IH]; simpl; [done|]. intros [= Hbc]. auto. Qed.

Lemma concat_last_inj (g : list string) (x y : string) :
  String.concat "/" (g ++ [x])%list = String.concat "/" (g ++ [y])%list ->
  x = y.
Proof.
  induction g as [|h g IH]; simpl; [done|].
  destruct (g ++ [x])%list as [|x1 l1] eqn:Hx; [by destruct g|].
  destruct (g ++ [y])%list as [|y1 l2] eqn:Hy; [by destruct g|].
  intros Heq. apply append_inj_r in Heq. apply append_inj_r in Heq. auto.
Qed.

(** X17.  When [build_run] returns true the visor holds no error,
    [@/artifacts.json] holds the encoded list of the files the visor has
    recorded (unless a directory has its name, in which case nothing
    is written), and without the debug flag [@/sources.json] is not a
    file. *)
Theorem build_run_success (build : build_t target_t)
    (want_debug rebuild_all : bool) (w : world) :
  fst (build_run build want_debug rebuild_all w) = true ->
  let w' := snd (build_run build want_debug rebuild_all w) in
  let json := duk_json_encode (JArr (map JStr (visor_filenames w'))) in
  visor_num_errors w' = 0%nat /\
  (exists r, resolve (fs build) "@/artifacts.json" = Some r /\
             (files w' !! r = Some (File json (clock w')) \/
              exists t, files w' !! r = Some (Dir t))) /\
  (want_debug = true \/ fs_fexist (fs build) w' "@/sources.json" = false).
Proof.
  unfold build_run. simpl fst. simpl snd.
  set (w1 := detect_conflicts _ _).
  destruct (Nat.ltb_spec 0 (visor_num_errors w1)) as [Herr|Hok].
  { intros Hz%Nat.eqb_eq. unfold visor_num_errors in *.
    destruct w1 as [? ? [] ?]. simpl in *. lia. }
  unfold build_after_check.
  set (w2 := visor_end_op _).
  destruct (Nat.eqb_spec (visor_num_errors w2) 0) as [Hz|Hnz].
  2: { intros Hr%Nat.eqb_eq.
       destruct (unlink_manifests_spec build w2) as (_ & _ & _ & Hv).
       unfold visor_num_errors in *. rewrite Hv in Hr. done. }
  set (w3 := clean_old_artifacts build true w2).
  destruct (write_manifests (fs build) w3) as [[] w4] eqn:Hwm.
  2: { intros Hr%Nat.eqb_eq.
       destruct (unlink_manifests_spec build w4) as (_ & _ & _ & Hv).
       pose proof (write_manifests_false (fs build) w3) as Hf.
       rewrite Hwm in Hf. destruct (Hf eq_refl) as [_ Hpos]. simpl in Hpos.
       unfold visor_num_errors in *. rewrite Hv in Hr. lia. }
  intros Hr%Nat.eqb_eq. cbv zeta. split; [done|].
  unfold write_tracking_files in *.
  set (w5 := if want_debug then _ else _) in *.
  set (json5 := duk_json_encode (JArr (map JStr (visor_filenames w5)))).
  set (w6 := snd (fs_fspew (fs build) w5 "@/artifacts.json" json5)).
  destruct (fs_fspew_files (fs build) w5 "@/artifacts.json" json5)
    as [Hfiles Hclock].
  pose proof (fs_fspew_visor (fs build) w5 "@/artifacts.json" json5) as Hvis.
  fold w6 in Hfiles, Hclock, Hvis.
  rewrite resolve_artifacts_json in Hfiles.
  set (ra := String.concat "/" _) in Hfiles.
  split.
  - exists ra. split; [done|]. rewrite Hfiles.
    unfold visor_filenames. rewrite Hvis, Hclock.
    destruct (files w5 !! ra) as [[c t|t]|] eqn:Hra.
    + left. by rewrite lookup_insert_eq.
    + right. by exists t.
    + left. by rewrite lookup_insert_eq.
  - destruct want_debug; [by left|right].
    rewrite fs_fexist_lookup, resolve_sources_json.
    set (rs := String.concat "/" _).
    assert (Hne : ra <> rs).
    { intros Heq. by apply concat_last_inj in Heq. }
    assert (Hgone : match files w5 !! rs with
                    | Some (File _ _) => false | _ => true end = true).
    { subst w5. pose proof (fs_unlink_gone (fs build) w4 "@/sources.json") as Hg.
      rewrite fs_fexist_lookup, resolve_sources_json in Hg. fold rs in Hg.
      by destruct (files _ !! rs) as [[]|]. }
    rewrite Hfiles.
    destruct (files w5 !! ra) as [[c t|t]|];
      rewrite ?lookup_insert_ne by done;
      by destruct (files w5 !! rs) as [[]|].
Qed.

End RunFacts.

Lemma build_run_success_witness :
  visor_num_errors
    (snd (build_run Examples.build_ok false false Sample.world_game_ok))
  = 0%nat.
Proof.
  apply (build_run_success Examples.build_ok false false Sample.world_game_ok).
  vm_compute. reflexivity.
Defined.

(** ** Source text in the debugger (ssj/source.c) *)

Section SourceFacts.
Import Vector Source.
Context `{Allocator} (junk : string).

Lemma scan_line_clean (l rest : string) :
  is_line l = true ->
  scan_line (l +:+ rest)
  = let '(b, r) := scan_line rest in (l +:+ b, r).
Proof.
  induction l as [|c l IH]; simpl.
  - intros _.
    change (scan_line rest = let '(b, r) := scan_line rest in (b, r)).
    by destruct (scan_line rest).
  - intros [[Hlf Hcr]%andb_prop Hl]%andb_prop.
    apply negb_true_iff in Hlf, Hcr.
    change (String c l +:+ rest) with (String c (l +:+ rest)).
    simpl scan_line. rewrite Hlf, Hcr, IH by done.
    by destruct (scan_line rest).
Qed.

Lemma scan_line_is_line (s : string) : is_line (fst (scan_line s)) = true.
Proof.
  induction s as [|c s IH]; simpl; [done|].
  destruct (Ascii.eqb c LF) eqn:Hlf; [done|].
  destruct (Ascii.eqb c CR) eqn:Hcr; [done|].
  destruct (scan_line s) as [b r]. simpl in *. by rewrite Hlf, Hcr, IH.
Qed.

Lemma read_lines_clean (fuel : nat) (text : string) (v : vector_t string) :
  wf v -> Forall (fun l => is_line l = true) (live v) ->
  wf (read_lines junk fuel text v) /\
  Forall (fun l => is_line l = true) (live (read_lines junk fuel text v)).
Proof.
  revert text v. induction fuel as [|fuel IH]; intros text v Hwf Hcl; [done|].
  simpl. unfold read_line.
  pose proof (scan_line_is_line text) as Hline.
  destruct (scan_line text) as [b r]. simpl in Hline.
  destruct (_ && _); [done|].
  pose proof (vector_push_live junk v b Hwf) as Hp.
  destruct (vector_push junk v b) as [[] v1]; simpl.
  - destruct Hp as (Hwf1 & Hl1 & _). apply IH; [done|].
    rewrite Hl1. apply Forall_app. split; [done|]. by constructor.
  - destruct Hp as [-> _]. by apply IH.
Qed.

(** X18.  No line that [source_new] stores holds a line terminator, whatever
    the text and whether or not memory runs out on the way. *)
Theorem source_lines_hold_no_terminator (text : string) (v : vector_t string) :
  source_new junk text = Some v ->
  Forall (fun l => is_line l = true) (live v).
Proof.
  unfold source_new. destruct (vector_new junk) as [v0|] eqn:Hnew; [|done].
  intros Heq. apply vector_new_wf in Hnew as [Hwf Hn].
  assert (v = read_lines junk (S (String.length text)) text v0) as ->
    by congruence.
  apply read_lines_clean; [done|]. unfold live. rewrite Hn. by constructor.
Qed.

Lemma concat_cons2 (sep l l2 : string) (ls : list string) :
  String.concat sep (l :: l2 :: ls) = l +:+ sep +:+ String.concat sep (l2 :: ls).
Proof. done. Qed.

Lemma append_cons (c : ascii) (a b : string) :
  String c a +:+ b = String c (a +:+ b).
Proof. done. Qed.

Lemma append_length (a b : string) :
  String.length (a +:+ b) = (String.length a + String.length b)%nat.
Proof.
  induction a as [|c a IH]; [done|]. rewrite append_cons. simpl. by rewrite IH.
Qed.

Lemma append_empty_r (a : string) : a +:+ "" = a.
Proof.
  induction a as [|c a IH]; [done|]. rewrite append_cons. by rewrite IH.
Qed.

Lemma concat_nonempty (sep : string) (ls : list string) :
  ls <> [] -> last ls <> Some "" -> sep <> "" -> String.concat sep ls <> "".
Proof.
  intros Hne Hlast Hsep. destruct ls as [|l [|l2 ls]]; [done| |].
  - simpl in *. congruence.
  - rewrite concat_cons2. intros Heq. apply (f_equal String.length) in Heq.
    rewrite !append_length in Heq. simpl in Heq.
    destruct sep; [done|]. simpl in Heq. lia.
Qed.

(** The text after a terminator that lines follow does not start with a
    line feed that would be taken for the second half of the terminator. *)
Lemma scan_after_line (sep l T : string) :
  sep ∈ terminators -> is_line l = true ->
  match T with
  | String c _ => Ascii.eqb c LF = false \/ sep <> String CR ""
  | EmptyString => True
  end ->
  scan_line (l +:+ sep +:+ T) = (l, T).
Proof.
  intros Hsep Hl HT. rewrite scan_line_clean by done.
  assert (Hs : scan_line (sep +:+ T) = ("", T)).
  { unfold terminators in Hsep.
    apply elem_of_cons in Hsep as [->|Hsep]; [done|].
    apply elem_of_cons in Hsep as [->|Hsep].
    - change (String CR "" +:+ T) with (String CR T). simpl.
      destruct T as [|c T]; [done|].
      destruct HT as [Hc|Hne]; [by rewrite Hc | by destruct Hne].
    - apply elem_of_cons in Hsep as [->|Hsep]; [done|].
      by apply elem_of_nil in Hsep. }
  rewrite Hs. by rewrite append_empty_r.
Qed.

Lemma concat_head (sep : string) (ls : list string) :
  sep ∈ terminators -> Forall (fun l => is_line l = true) ls ->
  match String.concat sep ls with
  | String c _ => Ascii.eqb c LF = false \/ sep <> String CR ""
  | EmptyString => True
  end.
Proof.
  intros Hsep Hls. destruct ls as [|l ls]; [done|].
  apply Forall_cons in Hls as [Hl _].
  assert (Hhead : forall rest, match l +:+ rest with
                               | String c _ => Ascii.eqb c LF = false \/
                                               l = "" 
                               | EmptyString => True
                               end).
  { intros rest. destruct l as [|c l]; simpl.
    - destruct rest; [done|by right].
    - apply andb_prop in Hl as [[Hlf _]%andb_prop _].
      left. by apply negb_true_iff. }
  destruct ls as [|l2 ls].
  - simpl. specialize (Hhead ""). rewrite append_empty_r in Hhead.
    destruct l; [done|]. destruct Hhead as [?|?]; [by left|done].
  - rewrite concat_cons2. specialize (Hhead (sep +:+ String.concat sep (l2 :: ls))).
    destruct (l +:+ _) as [|c r] eqn:Hlr; [done|].
    destruct Hhead as [?| ->]; [by left|].
    simpl in Hlr. unfold terminators in Hsep.
    apply elem_of_cons in Hsep as [->|Hsep].
    { right. done. }
    apply elem_of_cons in Hsep as [->|Hsep].
    { simpl in Hlr. injection Hlr as <- _. by left. }
    apply elem_of_cons in Hsep as [->|Hsep]; [by right|].
    by apply elem_of_nil in Hsep.
Qed.

Lemma read_lines_joined (sep : string) (ls : list string) (fuel : nat)
    (v : vector_t string) :
  (forall n, realloc_ok n = true) ->
  sep ∈ terminators -> Forall (fun l => is_line l = true) ls ->
  last ls <> Some "" ->
  (String.length (String.concat sep ls) < fuel)%nat ->
  wf v ->
  wf (read_lines junk fuel (String.concat sep ls) v) /\
  live (read_lines junk fuel (String.concat sep ls) v) = (live v ++ ls)%list.
Proof.
  intros Hmem Hsep. revert fuel v.
  induction ls as [|l ls IH]; intros fuel v Hcl Hlast Hfuel Hwf.
  - destruct fuel; [lia|]. simpl. by rewrite app_nil_r.
  - apply Forall_cons in Hcl as [Hl Hcl].
    destruct fuel as [|fuel]; [lia|].
    pose proof (vector_push_live junk v l Hwf) as Hp.
    assert (Hpush : exists v1, vector_push junk v l = (true, v1)).
    { destruct (vector_push junk v l) as [[] v1]; [by exists v1|].
      destruct Hp as [_ Hr]. by rewrite Hmem in Hr. }
    destruct Hpush as [v1 Hv1]. rewrite Hv1 in Hp.
    destruct Hp as (Hwf1 & Hl1 & _).
    destruct ls as [|l2 ls].
    + simpl in *. unfold read_line.
      pose proof (scan_line_clean l "" Hl) as Hs. rewrite append_empty_r in Hs.
      simpl in Hs. rewrite Hs, append_empty_r. simpl.
      destruct l as [|c l]; [done|]. simpl. rewrite Hv1. simpl.
      destruct fuel; simpl; by rewrite Hl1.
    + assert (Hhd := concat_head sep (l2 :: ls) Hsep Hcl).
      assert (Hne : String.concat sep (l2 :: ls) <> "").
      { apply concat_nonempty; [done|done|].
        unfold terminators in Hsep. intros ->.
        repeat (apply elem_of_cons in Hsep as [?|Hsep]; [done|]).
        by apply elem_of_nil in Hsep. }
      rewrite concat_cons2 in *.
      set (T := String.concat sep (l2 :: ls)) in *.
      cbn [read_lines]. unfold read_line.
      rewrite scan_after_line by done.
      destruct (String.eqb_spec T "") as [|_]; [done|].
      cbn [andb]. rewrite Hv1. cbn [snd].
      destruct (IH fuel v1) as [Hw Hlive]; [done|done| |done|].
      { rewrite !append_length in Hfuel.
        assert (1 <= String.length sep)%nat; [|lia].
        unfold terminators in Hsep.
        repeat (apply elem_of_cons in Hsep as [->|Hsep]; [simpl; lia|]).
        by apply elem_of_nil in Hsep. }
      split; [done|]. by rewrite Hlive, Hl1, <- app_assoc.
Qed.

(** X19.  Lines joined by one of the three terminators come back as they were
    (the last one, if there is one, being non-empty), each under its
    index, when memory does not run out. *)
Theorem source_new_keeps_lines (sep : string) (ls : list string) :
  calloc_ok = true -> (forall n, realloc_ok n = true) ->
  sep ∈ terminators -> Forall (fun l => is_line l = true) ls ->
  last ls <> Some "" ->
  exists v,
    source_new junk (String.concat sep ls) = Some v /\
    live v = ls /\
    source_cloc v = Z.of_nat (length ls) /\
    forall i : nat, source_get_line v (Z.of_nat i) = ls !! i.
Proof.
  intros Hc Hmem Hsep Hcl Hlast. unfold source_new.
  destruct (vector_new junk) as [v0|] eqn:Hnew.
  2: { unfold vector_new in Hnew. by rewrite Hc in Hnew. }
  apply vector_new_wf in Hnew as [Hwf0 Hn0].
  destruct (read_lines_joined sep ls (S (String.length (String.concat sep ls)))
              v0 Hmem Hsep Hcl Hlast ltac:(lia) Hwf0) as [Hwf Hlive].
  eexists. split; [done|].
  set (v := read_lines _ _ _ _) in *.
  assert (Hl : live v = ls).
  { rewrite Hlive. unfold live. by rewrite Hn0. }
  assert (Hcount : num_items v = Z.of_nat (length ls)).
  { rewrite <- Hl, live_length by done. destruct Hwf. lia. }
  split; [done|]. split; [done|]. intros i.
  unfold source_get_line, source_cloc, vector_len, vector_get.
  rewrite Hcount. destruct (Z.ltb_spec (Z.of_nat i) 0); [lia|]. simpl.
  destruct (Z.leb_spec (Z.of_nat (length ls)) (Z.of_nat i)).
  - symmetry. apply lookup_ge_None. lia.
  - rewrite Nat2Z.id. rewrite <- Hl. unfold live.
    rewrite lookup_take_lt; [done|lia].
Qed.

End SourceFacts.

Lemma source_lines_hold_no_terminator_witness :
  exists v,
    @Source.source_new Examples.reliable "" Examples.listing = Some v /\
    Forall (fun l => Source.is_line l = true) (Vector.live v).
Proof.
  eexists. split; [reflexivity|].
  apply (@source_lines_hold_no_terminator Examples.reliable ""
           Examples.listing).
  reflexivity.
Defined.

Lemma source_new_keeps_lines_witness :
  exists v,
    @Source.source_new Examples.reliable ""
      (String.concat (String Source.CR (String Source.LF "")) ["a"; ""; "b"])
    = Some v /\
    Vector.live v = ["a"; ""; "b"].
Proof.
  destruct (@source_new_keeps_lines Examples.reliable ""
              (String Source.CR (String Source.LF "")) ["a"; ""; "b"])
    as (v & Hnew & Hlive & _).
  - reflexivity.
  - intros n. reflexivity.
  - unfold Source.terminators. repeat constructor.
  - repeat constructor.
  - simpl. discriminate.
  - exists v. split; [exact Hnew | exact Hlive].
Defined.

(** ** The value stack of the script layer (jsal.c) *)

Section JsalFacts.
Import Vector Jsal.
Context `{Allocator} (junk : js_ref) (undefined : Z).
Hypothesis Hmem : forall n, realloc_ok n = true.

Lemma strong_refs_app (x : Z) (l1 l2 : list js_ref) :
  strong_refs x (l1 ++ l2) = (strong_refs x l1 + strong_refs x l2)%Z.
Proof. unfold strong_refs. rewrite filter_app, length_app. lia. Qed.

Lemma strong_refs_cons (x : Z) (r : js_ref) (l : list js_ref) :
  strong_refs x (r :: l) = (strong_refs x [r] + strong_refs x l)%Z.
Proof. apply (strong_refs_app x [r] l). Qed.

Lemma strong_refs_split (x : Z) (l : list js_ref) (k : nat) :
  strong_refs x l = (strong_refs x (take k l) + strong_refs x (drop k l))%Z.
Proof. by rewrite <- strong_refs_app, take_drop. Qed.



Lemma held_release (held : gmap Z Z) (r : js_ref) (x : Z) :
  default 0%Z (release_ref held r !! x)
  = (default 0%Z (held !! x) - strong_refs x [r])%Z.
Proof.
  unfold release_ref, JsRelease, strong_refs.
  destruct r as [[] v]; cbn [weak_ref value].
  - rewrite filter_cons_False by (by intros []). simpl. lia.
  - destruct (decide (v = x)) as [->|Hne].
    + rewrite lookup_insert_eq. rewrite filter_cons_True by (by split).
      simpl. lia.
    + rewrite lookup_insert_ne by done.
      rewrite filter_cons_False by (by intros []). simpl. lia.
Qed.


Lemma strong_refs_weak (x v : Z) : strong_refs x [mk_ref true v] = 0%Z.
Proof. unfold strong_refs. by rewrite filter_cons_False by (by intros []). Qed.


Lemma normalize_range (st : jsal_t) (i k : Z) :
  jsal_normalize_index st i = Some k ->
  (0 <= k < jsal_get_top st)%Z /\
  (k = i \/ k = i + jsal_get_top st)%Z.
Proof.
  unfold jsal_normalize_index. cbv zeta.
  set (top := jsal_get_top st).
  set (r := if (i <? 0)%Z then (i + top)%Z else i).
  assert (r = i \/ r = (i + top)%Z) by (subst r; destruct (i <? 0)%Z; auto).
  destruct (Z.ltb_spec r 0); [done|]. destruct (Z.leb_spec top r); [done|].
  simpl. intros [= <-]. split; [lia | done].
Qed.


Lemma stack_last (st : jsal_t) :
  stack_ok st -> (0 < num_items (s_value_stack st))%Z ->
  exists r l0,
    vector_get (s_value_stack st) (vector_len (s_value_stack st) - 1) = Some r /\
    stack_items st = (l0 ++ [r])%list /\
    length l0 = Z.to_nat (num_items (s_value_stack st) - 1).
Proof.
  intros [Hwf Hb] Hpos. unfold vector_len, stack_items.
  rewrite vector_get_live by (done || lia).
  assert (Hlen := live_length (s_value_stack st) Hwf).
  destruct (live (s_value_stack st)) as [|r0 l] eqn:Hl using rev_ind.
  { simpl in Hlen. lia. }
  clear IHl. rewrite length_app in Hlen. simpl in Hlen.
  exists r0, l. split; [|split; [done | lia]].
  replace (Z.to_nat (num_items (s_value_stack st) - 1)) with (length l) by lia.
  by rewrite lookup_app_r, Nat.sub_diag by lia.
Qed.



Lemma stack_get (st : jsal_t) (i k : Z) :
  stack_ok st -> jsal_normalize_index st i = Some k ->
  exists r,
    vector_get (s_value_stack st) (k + s_stack_base st) = Some r /\
    stack_items st !! Z.to_nat (s_stack_base st + k) = Some r.
Proof.
  intros [Hwf Hb] Hk. apply normalize_range in Hk as [Hk _].
  unfold jsal_get_top, vector_len in Hk.
  rewrite vector_get_live by (done || lia). unfold stack_items.
  replace (k + s_stack_base st)%Z with (s_stack_base st + k)%Z by lia.
  destruct (live (s_value_stack st) !! Z.to_nat (s_stack_base st + k))
    as [r|] eqn:Hr; [by exists r|].
  apply lookup_ge_None in Hr. rewrite live_length in Hr by done. lia.
Qed.


Lemma jsal_insert_shape (st st' : jsal_t) (i : Z) :
  stack_ok st -> jsal_insert junk st i = Some st' ->
  stack_ok st' /\ s_stack_base st' = s_stack_base st /\
  held st' = held st /\
  num_items (s_value_stack st') = num_items (s_value_stack st) /\
  exists k r l0,
    jsal_normalize_index st i = Some k /\
    stack_items st = (l0 ++ [r])%list /\
    stack_items st'
    = (take (Z.to_nat (s_stack_base st + k)) l0 ++
       r :: drop (Z.to_nat (s_stack_base st + k)) l0)%list.
Proof.
  intros Hok. pose proof Hok as [Hwf Hb]. unfold jsal_insert.
  destruct (jsal_normalize_index st i) as [k|] eqn:Hk; [|done].
  pose proof (normalize_range st i k Hk) as [Hr _].
  unfold jsal_get_top, vector_len in *.
  destruct (stack_last st Hok) as (r & l0 & Hget & Hl & Hlen); [lia|].
  unfold vector_len in Hget.
  destruct (Z.eqb_spec k (num_items (s_value_stack st) - s_stack_base st - 1))
    as [Heq|Hne].
  - intros [= <-]. repeat (split; [done|]). exists k, r, l0.
    split; [done|]. split; [done|].
    rewrite Hl. rewrite take_ge, drop_ge by lia. done.
  - rewrite Hget. intros [= <-]. simpl.
    set (K := (k + s_stack_base st)%Z).
    destruct (vector_insert_granted junk Hmem (s_value_stack st) K r Hwf)
      as (Hw1 & Hl1 & Hn1); [lia|].
    set (v1 := snd (vector_insert junk (s_value_stack st) K r)) in *.
    unfold vector_pop.
    destruct (vector_shrink_granted junk Hmem v1 (num_items v1 - 1) Hw1)
      as (Hw2 & Hn2 & Hl2); [lia|].
    split; [split; simpl; [done | lia]|]. split; [done|]. split; [done|].
    split; [simpl; lia|].
    exists k, r, l0. split; [done|]. split; [done|].
    unfold stack_items in *. simpl. rewrite Hl2, Hl1, Hl, Hn1.
    replace (Z.to_nat (s_stack_base st + k)) with (Z.to_nat K) by lia.
    assert (HK : (Z.to_nat K <= length l0)%nat) by lia.
    rewrite (take_app_le l0 [r] (Z.to_nat K) HK).
    rewrite (drop_app_le l0 [r] (Z.to_nat K) HK).
    replace (Z.to_nat (num_items (s_value_stack st) + 1 - 1))
      with (length (take (Z.to_nat K) l0 ++ r :: drop (Z.to_nat K) l0))
      by (rewrite length_app, length_take; simpl; rewrite length_drop; lia).
    assert (Hre : (take (Z.to_nat K) l0 ++ r :: drop (Z.to_nat K) l0 ++ [r])%list
                  = ((take (Z.to_nat K) l0 ++ r :: drop (Z.to_nat K) l0) ++ [r])%list)
      by (by rewrite <- app_assoc).
    rewrite Hre. apply take_app_length.
Qed.

Lemma jsal_pull_shape (st st' : jsal_t) (i : Z) :
  stack_ok st -> jsal_pull junk st i = Some st' ->
  stack_ok st' /\ s_stack_base st' = s_stack_base st /\
  held st' = held st /\
  exists k r,
    jsal_normalize_index st i = Some k /\
    stack_items st !! Z.to_nat (s_stack_base st + k) = Some r /\
    stack_items st'
    = (delete (Z.to_nat (s_stack_base st + k)) (stack_items st) ++ [r])%list.
Proof.
  intros Hok. pose proof Hok as [Hwf Hb]. unfold jsal_pull.
  destruct (jsal_normalize_index st i) as [k|] eqn:Hk; [|done].
  pose proof (normalize_range st i k Hk) as [Hr _].
  unfold jsal_get_top, vector_len in *.
  destruct (stack_get st i k Hok Hk) as (r & Hget & Hitem).
  rewrite Hget. intros [= <-]. simpl.
  destruct (vector_push_granted junk Hmem (s_value_stack st) r Hwf)
    as (Hw1 & Hl1 & Hn1).
  set (v1 := snd (vector_push junk (s_value_stack st) r)) in *.
  destruct (vector_remove_live junk v1 (k + s_stack_base st) Hw1)
    as (Hw2 & Hl2 & Hn2); [lia|].
  split; [split; simpl; [done | lia]|]. split; [done|]. split; [done|].
  exists k, r. split; [done|]. split; [done|].
  unfold stack_items in *. simpl. rewrite Hl2, Hl1.
  replace (Z.to_nat (k + s_stack_base st))
    with (Z.to_nat (s_stack_base st + k)) by lia.
  apply lookup_lt_Some in Hitem.
  rewrite !delete_take_drop, take_app_le, drop_app_le by lia.
  by rewrite <- app_assoc.
Qed.




Lemma release_at_drop (stack : vector_t js_ref) (m : nat) (from : Z)
    (held0 : gmap Z Z) :
  wf stack -> (0 <= from)%Z ->
  (from + Z.of_nat m <= num_items stack)%Z ->
  exists held',
    release_at stack (seqZ from (Z.of_nat m)) held0 = Some held' /\
    forall x,
      default 0%Z (held' !! x)
      = (default 0%Z (held0 !! x)
         - strong_refs x (take m (drop (Z.to_nat from) (live stack))))%Z.
Proof.
  intros Hwf. revert from held0.
  induction m as [|m IH]; intros from held0 Hfrom Hle.
  - exists held0. split; [done|]. intros x. unfold strong_refs. simpl. lia.
  - replace (Z.of_nat (S m)) with (Z.succ (Z.of_nat m)) by lia.
    rewrite seqZ_cons by lia. simpl.
    rewrite vector_get_live by (done || lia).
    destruct (live stack !! Z.to_nat from) as [r|] eqn:Hr.
    2: { apply lookup_ge_None in Hr. rewrite live_length in Hr by done. lia. }
    replace (Z.pred (Z.succ (Z.of_nat m))) with (Z.of_nat m) by lia.
    destruct (IH (Z.succ from) (release_ref held0 r)) as (held' & Hrun & Hh);
      [lia | lia |].
    exists held'. split; [done|]. intros x. rewrite Hh, held_release.
    rewrite (drop_S _ _ _ Hr). simpl take.
    rewrite (strong_refs_cons x r (take m _)).
    replace (Z.to_nat (Z.succ from)) with (S (Z.to_nat from)) by lia. lia.
Qed.

Lemma fill_undefined (m : nat) (stack : vector_t js_ref) (from : Z) :
  wf stack -> (0 <= from)%Z -> (from + Z.of_nat m <= num_items stack)%Z ->
  let stack' :=
    fold_left (fun stack i => vector_put stack i (mk_ref true undefined))
              (seqZ from (Z.of_nat m)) stack in
  wf stack' /\ num_items stack' = num_items stack /\
  live stack'
  = (take (Z.to_nat from) (live stack) ++
     replicate m (mk_ref true undefined) ++
     drop (Z.to_nat from + m) (live stack))%list.
Proof.
  revert stack from. induction m as [|m IH]; intros stack from Hwf Hfrom Hle.
  - simpl. split; [done|]. split; [done|].
    by rewrite Nat.add_0_r, take_drop.
  - replace (Z.of_nat (S m)) with (Z.succ (Z.of_nat m)) by lia.
    rewrite seqZ_cons by lia. cbn [fold_left].
    replace (Z.pred (Z.succ (Z.of_nat m))) with (Z.of_nat m) by lia.
    destruct (vector_put_live stack from (mk_ref true undefined) Hwf)
      as (Hw1 & Hl1 & Hn1); [lia|].
    destruct (IH (vector_put stack from (mk_ref true undefined)) (Z.succ from))
      as (Hw2 & Hn2 & Hl2); [done | lia | lia |].
    cbv zeta in Hl2 |- *. split; [done|]. split; [lia|].
    rewrite Hl2, Hl1.
    assert (Hlen : (Z.to_nat from < length (live stack))%nat)
      by (rewrite live_length by done; lia).
    replace (Z.to_nat (Z.succ from)) with (S (Z.to_nat from)) by lia.
    rewrite insert_take_drop by done.
    set (u := mk_ref true undefined). set (F := Z.to_nat from).
    set (L := live stack) in *.
    assert (HA : length (take F L) = F) by (rewrite length_take; lia).
    assert (Ht : take (S F) (take F L ++ u :: drop (S F) L)
                 = (take F L ++ [u])%list).
    { replace (S F) with (F + 1)%nat at 1 by lia.
      by rewrite take_app_add' by done. }
    assert (Hd : drop (S F + m) (take F L ++ u :: drop (S F) L)
                 = drop (F + S m) L).
    { replace (S F + m)%nat with (F + S m)%nat by lia.
      rewrite drop_app_add' by done. simpl. rewrite drop_drop.
      f_equal. lia. }
    rewrite Ht, Hd, <- app_assoc. done.
Qed.


Lemma strong_refs_undefined (x : Z) (m : nat) :
  strong_refs x (replicate m (mk_ref true undefined)) = 0%Z.
Proof.
  induction m as [|m IH]; [done|]. simpl.
  rewrite strong_refs_cons, IH, strong_refs_weak. done.
Qed.

Lemma resize_stack_runs (st : jsal_t) (new_size : Z) :
  stack_ok st -> (s_stack_base st <= new_size)%Z ->
  exists st',
    resize_stack junk undefined st new_size = Some st' /\
    stack_ok st' /\ s_stack_base st' = s_stack_base st /\
    num_items (s_value_stack st') = new_size /\
    stack_items st'
    = (take (Z.to_nat new_size) (stack_items st) ++
       replicate (Z.to_nat (new_size - num_items (s_value_stack st)))
                 (mk_ref true undefined))%list /\
    forall x, surplus st' x = surplus st x.
Proof.
  intros Hok Hnew. pose proof Hok as [Hwf Hb]. unfold resize_stack, vector_len.
  set (old := num_items (s_value_stack st)) in *.
  set (L := live (s_value_stack st)).
  assert (HL : length L = Z.to_nat old) by (by apply live_length).
  destruct (Z.ltb_spec new_size old) as [Hlt|Hge].
  - destruct (release_at_drop (s_value_stack st) (Z.to_nat (old - new_size))
                new_size (held st) Hwf) as (held' & Hrel & Hheld); [lia|lia|].
    rewrite Z2Nat.id in Hrel by lia. rewrite Hrel.
    destruct (Z.ltb_spec old new_size); [lia|]. eexists. split; [done|].
    destruct (vector_shrink_granted junk Hmem (s_value_stack st) new_size Hwf)
      as (Hw1 & Hn1 & Hl1); [lia|].
    cbn [s_value_stack s_stack_base held].
    split; [split; cbn [s_value_stack s_stack_base]; [done | lia]|].
    split; [done|]. split; [done|].
    unfold surplus, stack_items. cbn [s_value_stack held].
    rewrite Hl1. fold L. split.
    { replace (Z.to_nat (new_size - old)) with 0%nat by lia.
      by rewrite app_nil_r. }
    intros x. rewrite Hheld.
    rewrite (strong_refs_split x L (Z.to_nat new_size)).
    rewrite (take_ge (drop _ L)) by (rewrite length_drop; lia). lia.
  - destruct (vector_resize_granted junk Hmem (s_value_stack st) new_size Hwf)
      as (Hw1 & Hn1 & Hl1); [lia|].
    fold old in Hl1. replace (new_size `min` old)%Z with old in Hl1 by lia.
    fold L in Hl1. rewrite (take_ge L) in Hl1 by lia.
    set (v1 := snd (vector_resize junk (s_value_stack st) new_size)) in *.
    destruct (Z.ltb_spec old new_size) as [Hgrow|Hsame];
      (eexists; split; [done|]).
    + destruct (fill_undefined (Z.to_nat (new_size - old)) v1 old Hw1)
        as (Hw2 & Hn2 & Hl2); [lia | lia |].
      rewrite Z2Nat.id in Hw2, Hn2, Hl2 by lia.
      cbn [s_value_stack s_stack_base held].
      split; [split; cbn [s_value_stack s_stack_base]; [done | lia]|].
      split; [done|]. split; [lia|].
      unfold surplus, stack_items. cbn [s_value_stack held].
      rewrite Hl2, Hl1. fold L.
      rewrite (drop_ge (live v1)) by (rewrite live_length by done; lia).
      rewrite app_nil_r, (take_ge L) by lia. split; [done|].
      intros x. rewrite !strong_refs_app, strong_refs_undefined. lia.
    + cbn [s_value_stack s_stack_base held].
      split; [split; cbn [s_value_stack s_stack_base]; [done | lia]|].
      split; [done|]. split; [done|].
      unfold surplus, stack_items. cbn [s_value_stack held].
      fold L.
      assert (Hv1 : live v1 = L).
      { rewrite <- Hl1. symmetry. apply take_ge.
        rewrite live_length by done. lia. }
      rewrite Hv1. split; [|done].
      replace (Z.to_nat (new_size - old)) with 0%nat by lia.
      by rewrite app_nil_r, take_ge by lia.
Qed.




(** X22.  [jsal_insert] puts the value on top of the stack at the
    index given, below the values that stood there and above; what it
    does, [jsal_pull] at the same index undoes. *)
Theorem jsal_pull_undoes_insert (st st1 : jsal_t) (i : Z) :
  stack_ok st -> jsal_insert junk st i = Some st1 ->
  (exists k r l0,
     jsal_normalize_index st i = Some k /\
     stack_items st = (l0 ++ [r])%list /\
     stack_items st1
     = (take (Z.to_nat (s_stack_base st + k)) l0 ++
        r :: drop (Z.to_nat (s_stack_base st + k)) l0)%list) /\
  exists st2,
    jsal_pull junk st1 i = Some st2 /\
    stack_items st2 = stack_items st /\
    held st2 = held st /\ s_stack_base st2 = s_stack_base st.
Proof.
  intros Hok Hins.
  destruct (jsal_insert_shape st st1 i Hok Hins)
    as (Hok1 & Hb1 & Hh1 & Hn1 & k & r & l0 & Hk & Hl & Hl1).
  split; [by exists k, r, l0|].
  assert (Hk1 : jsal_normalize_index st1 i = Some k).
  { unfold jsal_normalize_index, jsal_get_top, vector_len in *.
    by rewrite Hn1, Hb1. }
  destruct (stack_get st1 i k Hok1 Hk1) as (r1 & Hget & Hitem).
  assert (Hpull : exists st2, jsal_pull junk st1 i = Some st2).
  { unfold jsal_pull. rewrite Hk1, Hget. by eexists. }
  destruct Hpull as [st2 Hpull]. exists st2. split; [done|].
  destruct (jsal_pull_shape st1 st2 i Hok1 Hpull)
    as (_ & Hb2 & Hh2 & k' & r' & Hk' & Hr' & Hl2).
  rewrite Hk1 in Hk'. injection Hk' as <-.
  split; [|split; congruence].
  rewrite Hl2, Hl, Hb1. rewrite Hb1 in Hr'. rewrite Hl1 in Hr' |- *.
  pose proof (normalize_range st i k Hk) as [Hr _].
  destruct Hok as [Hwf Hb].
  assert (Hlen : length (stack_items st) = Z.to_nat (num_items (s_value_stack st)))
    by (by apply live_length).
  rewrite Hl, length_app in Hlen. simpl in Hlen.
  unfold jsal_get_top, vector_len in Hr.
  set (K := Z.to_nat (s_stack_base st + k)) in *.
  assert (HK : (K <= length l0)%nat) by lia.
  assert (HtK : length (take K l0) = K) by (rewrite length_take; lia).
  rewrite lookup_app_r in Hr' by lia. rewrite HtK, Nat.sub_diag in Hr'.
  injection Hr' as <-.
  rewrite delete_take_drop.
  rewrite take_app_length' by done.
  replace (S K) with (K + 1)%nat by lia.
  rewrite drop_app_add' by done. simpl. rewrite drop_0.
  by rewrite take_drop.
Qed.

(** X23.  [jsal_pop] of at most as many values as the stack holds above
    its base leaves the values below them as they are; of more, it
    throws. *)
Theorem jsal_pop_drops_top_values (st : jsal_t) (num_values : Z) :
  stack_ok st -> (0 <= num_values)%Z ->
  match jsal_pop junk undefined st num_values with
  | Some st' =>
      (num_values <= jsal_get_top st)%Z /\
      jsal_get_top st' = (jsal_get_top st - num_values)%Z /\
      stack_items st'
      = take (Z.to_nat (num_items (s_value_stack st) - num_values))
             (stack_items st)
  | None => (jsal_get_top st < num_values)%Z
  end.
Proof.
  intros Hok Hn. pose proof Hok as [Hwf Hb]. unfold jsal_pop, jsal_set_top.
  destruct (Z.ltb_spec (jsal_get_top st) num_values) as [Hlt|Hge]; [done|].
  destruct (resize_stack_runs st
              (jsal_get_top st - num_values + s_stack_base st) Hok)
    as (st' & Hrun & _ & Hbase & Hnum & Hitems & _); [lia|].
  rewrite Hrun. split; [done|].
  unfold jsal_get_top, vector_len in *. split; [lia|].
  rewrite Hitems.
  replace (Z.to_nat (_ - num_items (s_value_stack st))) with 0%nat by lia.
  rewrite app_nil_r. f_equal. lia.
Qed.

End JsalFacts.

Lemma jsal_pop_drops_top_values_witness :
  Jsal.stack_items
    (default Examples.stack3
       (@Jsal.jsal_pop Examples.reliable (Jsal.mk_ref true 0) 99
          Examples.stack3 1))
  = [Jsal.mk_ref false 10; Jsal.mk_ref false 20].
Proof.
  pose proof (@jsal_pop_drops_top_values Examples.reliable
                (Jsal.mk_ref true 0) 99 (fun _ => eq_refl) Examples.stack3 1)
    as Hpop.
  destruct (@Jsal.jsal_pop Examples.reliable (Jsal.mk_ref true 0) 99
              Examples.stack3 1) as [st'|] eqn:Hrun.
  - destruct Hpop as (_ & _ & Hitems).
    + split; [split; [reflexivity | simpl; lia] | simpl; lia].
    + lia.
    + simpl. rewrite Hitems. reflexivity.
  - vm_compute in Hrun. discriminate Hrun.
Defined.


Lemma jsal_pull_undoes_insert_witness :
  exists st1 st2,
    @Jsal.jsal_insert Examples.reliable (Jsal.mk_ref true 0) Examples.stack3 0
    = Some st1 /\
    @Jsal.jsal_pull Examples.reliable (Jsal.mk_ref true 0) st1 0 = Some st2 /\
    Jsal.stack_items st2 = Jsal.stack_items Examples.stack3.
Proof.
  destruct (@Jsal.jsal_insert Examples.reliable (Jsal.mk_ref true 0)
              Examples.stack3 0) as [st1|] eqn:Hins.
  2: { vm_compute in Hins. discriminate Hins. }
  destruct (@jsal_pull_undoes_insert Examples.reliable (Jsal.mk_ref true 0)
              (fun _ => eq_refl) Examples.stack3 st1 0)
    as (_ & st2 & Hpull & Hitems & _).
  - split; [split; [reflexivity | simpl; lia] | simpl; lia].
  - exact Hins.
  - exists st1, st2. split; [reflexivity|]. split; [exact Hpull | exact Hitems].
Defined.

(** ** Directories (fs.c) *)

Section DirectoryFacts.
Import Vector Directory.
Context `{Allocator} `{Tinydir} (junk : path_t).
Hypothesis Hmem : forall n, realloc_ok n = true.

Lemma list_entries_live (origin : path_t) (found : list (string * bool))
    (list : vector_t path_t) (dirname : string) :
  origin = path_new_dir dirname -> wf list ->
  wf (list_entries junk origin found list) /\
  live (list_entries junk origin found list)
  = (live list ++ listed dirname found)%list.
Proof.
  intros ->. revert list.
  induction found as [|[name d] found IH]; intros list Hwf.
  - simpl. by rewrite app_nil_r.
  - unfold list_entries in *. cbn [fold_left]. unfold listed in *.
    destruct (String.eqb_spec name ".") as [->|Hdot]; cbn [orb].
    { rewrite filter_cons_False by (by intros [? _]). by apply IH. }
    destruct (String.eqb_spec name "..") as [->|Hdd].
    { rewrite filter_cons_False by (by intros [_ ?]). by apply IH. }
    rewrite filter_cons_True by done. cbn [map fst snd].
    destruct (vector_push_granted junk Hmem list
                (path_rebase (if d then path_new_dir name else path_new name)
                             (path_new_dir dirname)) Hwf)
      as (Hwf1 & Hl1 & _).
    destruct (IH _ Hwf1) as [Hw Hl]. split; [done|].
    rewrite Hl, Hl1, <- app_assoc. done.
Qed.

Lemma directory_read_from (fuel : nat) (w : world) (it : directory_t)
    (list : vector_t path_t) :
  entries it = Some list -> wf list ->
  (0 <= position it <= num_items list)%Z ->
  (Z.to_nat (num_items list - position it) < fuel)%nat ->
  directory_read junk fuel w it
  = (drop (Z.to_nat (position it)) (live list),
     mk_directory (entries it) (d_fs it) (num_items list) (d_path it)).
Proof.
  intros He Hwf. revert it He.
  induction fuel as [|fuel IH]; intros it He Hpos Hfuel; [lia|].
  cbn [directory_read]. unfold directory_next, directory_load.
  rewrite He. cbn [entries]. rewrite He. unfold vector_len.
  destruct (Z.leb_spec (num_items list) (position it)) as [Hend|Hin].
  - rewrite drop_ge by (rewrite live_length by done; lia).
    destruct it as [e f p d]. cbn [entries position d_fs d_path] in *.
    assert (p = num_items list) as -> by lia. by subst e.
  - rewrite vector_get_live by (done || lia).
    destruct (live list !! Z.to_nat (position it)) as [path|] eqn:Hp.
    2: { apply lookup_ge_None in Hp. rewrite live_length in Hp by done. lia. }
    rewrite (drop_S _ _ _ Hp).
    rewrite (IH (mk_directory (Some list) (d_fs it) (position it + 1)
                              (d_path it)));
      cbn [entries position d_fs d_path]; [|done|lia|lia].
    by replace (Z.to_nat (position it + 1)) with (S (Z.to_nat (position it)))
      by lia.
Qed.

(** X24.  Reading a directory that has just been opened gives, in the
    order in which the directory is listed, every entry but [.] and
    [..], each as a path under the directory's name, a directory with
    the trailing separator; the position is then the number of entries
    and [directory_next] gives [NULL].  Memory is taken not to run
    out. *)
Theorem directory_reads_listing (fs : fs_t) (w w' : world) (dirname : string)
    (it : directory_t) (resolved_name : string)
    (found : list (string * bool)) (fuel : nat) :
  calloc_ok = true ->
  directory_open fs w dirname = Some it ->
  resolve fs (path_cstr (path_new_dir dirname)) = Some resolved_name ->
  tinydir_entries w' resolved_name = Some found ->
  (length found < fuel)%nat ->
  let paths := listed (path_cstr (path_new_dir dirname)) found in
  let '(read, it') := directory_read junk fuel w' it in
  read = paths /\
  directory_position it' = Z.of_nat (length paths) /\
  fst (directory_next junk w' it') = Some Null.
Proof.
  intros Hc Hopen Hres Hfound Hfuel. cbv zeta.
  unfold directory_open in Hopen.
  destruct (fs_dir_exists fs w dirname); [|done]. injection Hopen as <-.
  set (D := path_cstr (path_new_dir dirname)) in *.
  destruct (vector_new junk) as [v0|] eqn:Hnew.
  2: { unfold vector_new in Hnew. by rewrite Hc in Hnew. }
  pose proof (vector_new_wf junk v0 Hnew) as [Hwf0 Hn0].
  destruct (list_entries_live (path_new_dir D) found v0 D eq_refl Hwf0)
    as [Hwf Hlive].
  set (list := list_entries junk (path_new_dir D) found v0) in *.
  assert (Hl0 : live v0 = []) by (unfold live; by rewrite Hn0).
  rewrite Hl0 in Hlive. simpl in Hlive.
  assert (Hnum : num_items list = Z.of_nat (length (listed D found))).
  { rewrite <- Hlive, live_length by done. destruct Hwf. lia. }
  assert (Hle : (length (listed D found) <= length found)%nat).
  { unfold listed. rewrite length_map. apply length_filter. }
  set (it1 := mk_directory (Some list) fs 0 (path_new_dir dirname)).
  assert (Hload : directory_load junk w'
                    (mk_directory None fs 0 (path_new_dir dirname)) = it1).
  { unfold directory_load, directory_rewind, fs_list_dir.
    cbn [entries d_fs d_path]. fold D. by rewrite Hres, Hfound, Hnew. }
  destruct fuel as [|fuel]; [lia|].
  assert (Hfirst : directory_read junk (S fuel) w'
                     (mk_directory None fs 0 (path_new_dir dirname))
                   = directory_read junk (S fuel) w' it1).
  { cbn [directory_read]. unfold directory_next. rewrite Hload.
    unfold directory_load at 2. cbn [entries]. done. }
  rewrite Hfirst.
  rewrite (directory_read_from (S fuel) w' it1 list eq_refl Hwf);
    unfold it1; cbn [position entries d_fs d_path]; [|lia|lia].
  rewrite drop_0. split; [done|]. split; [done|].
  unfold directory_next, directory_load. cbn [entries position fst].
  unfold vector_len. by rewrite Z.leb_refl.
Qed.


End DirectoryFacts.

Lemma directory_reads_listing_witness :
  fst (@Directory.directory_read Examples.reliable Examples.sample_tinydir
         (path_new "") 5 Examples.world_dir Examples.lib_dir)
  = [path_new "lib/a.js"; path_new "lib/sub/"].
Proof.
  pose proof (@directory_reads_listing Examples.reliable
                Examples.sample_tinydir (path_new "") (fun _ => eq_refl)
                Sample.fs0 Examples.world_dir Examples.world_dir "lib/"
                Examples.lib_dir "/home/dev/src/lib/" Examples.lib_entries 5)
    as Hread.
  cbv zeta in Hread.
  destruct (@Directory.directory_read Examples.reliable
              Examples.sample_tinydir (path_new "") 5 Examples.world_dir
              Examples.lib_dir) as [read it'].
  destruct Hread as (Hpaths & _).
  - reflexivity.
  - reflexivity.
  - reflexivity.
  - reflexivity.
  - simpl. lia.
  - simpl. rewrite Hpaths. reflexivity.
Defined.



(** ** Dispatch of jobs *)

Section AsyncFacts.
Import Vector Async.
Context `{Allocator} {script_t async_hint_t double : Type}.
Context (hint_is_render : async_hint_t -> bool) (fneg : double -> double)
        (zero : double) (junk : job_t script_t async_hint_t double).

Implicit Types (st : async_t script_t async_hint_t double)
  (q : option (vector_t (job_t script_t async_hint_t double)))
  (v : vector_t (job_t script_t async_hint_t double))
  (j : job_t script_t async_hint_t double).

Lemma queued_tokens_split st :
  queued_tokens st =
  (queue_tokens (s_onetime st) ++ queue_tokens (s_recurring st))%list.
Proof. unfold queued_tokens, queued, queue_tokens. apply map_app. Qed.

Lemma each_job_wf (f : job_t script_t async_hint_t double -> job_t script_t async_hint_t double) v : wf v -> wf (each_job f v).
Proof.
  intros [Hlen Hnum]. split; [|done]. unfold each_job. cbn [buffer max_items].
  rewrite length_app, length_map, <- length_app, take_drop. done.
Qed.

Lemma each_job_live (f : job_t script_t async_hint_t double -> job_t script_t async_hint_t double) v :
  wf v -> live (each_job f v) = map f (live v).
Proof.
  intros [Hlen Hnum]. unfold live, each_job. cbn [buffer num_items].
  apply take_app_length'. rewrite length_map, length_take. lia.
Qed.

Lemma each_job_tokens (f : job_t script_t async_hint_t double -> job_t script_t async_hint_t double) q :
  (forall j, token (f j) = token j) -> queue_wf q ->
  queue_tokens (each_job f <$> q) = queue_tokens q /\
  queue_wf (each_job f <$> q).
Proof.
  intros Hf Hwf. destruct q as [v|]; [|done]. cbn in *. split.
  - unfold queue_tokens. cbn. rewrite each_job_live by done.
    rewrite map_map. apply map_ext. done.
  - by apply each_job_wf.
Qed.

Lemma push_tokens v j :
  wf v ->
  wf (snd (vector_push junk v j)) /\
  (map token (live (snd (vector_push junk v j))) = map token (live v) \/
   map token (live (snd (vector_push junk v j))) =
   (map token (live v) ++ [token j])%list).
Proof.
  intros Hwf. pose proof (vector_push_live junk v j Hwf) as Hp.
  destruct (vector_push junk v j) as [[] v']; cbn.
  - destruct Hp as (? & -> & _). split; [done|]. right. apply map_app.
  - destruct Hp as [-> _]. by split; [|left].
Qed.

Lemma tokens_below_start : tokens_below (async_init junk async_start).
Proof.
  unfold tokens_below, async_init, queued_tokens, queued. cbn.
  assert (Hnew : queue_wf (vector_new junk) /\
                 queue_tokens (vector_new junk) = []).
  { destruct (vector_new junk) as [v|] eqn:Hv; [|done].
    apply vector_new_wf in Hv as [Hwf Hnum]. split; [done|].
    unfold queue_tokens, live. cbn. by rewrite Hnum. }
  destruct Hnew as [Hwf Hnil]. unfold queue_tokens in Hnil.
  rewrite map_app, Hnil. cbn. repeat split; try done. constructor.
Qed.

Lemma forall_below (l : list Z) (n m : Z) :
  (n <= m)%Z -> Forall (fun t => 1 <= t < n)%Z l ->
  Forall (fun t => 1 <= t < m)%Z l.
Proof.
  intros Hnm Hall. eapply Forall_impl; [exact Hall|]. cbn. intros; lia.
Qed.

Lemma nodup_fresh (l1 l2 : list Z) (n : Z) :
  NoDup (l1 ++ l2) -> Forall (fun t => 1 <= t < n)%Z (l1 ++ l2) ->
  NoDup ((l1 ++ [n]) ++ l2) /\ NoDup (l1 ++ l2 ++ [n]).
Proof.
  intros Hnd Hall.
  assert (Hn : n ∉ (l1 ++ l2)%list).
  { intros Hin. rewrite Forall_forall in Hall. apply Hall in Hin. lia. }
  split.
  - eapply NoDup_Permutation_proper; [|apply NoDup_cons; split; [exact Hn|exact Hnd]].
    rewrite <- (assoc_L app). cbn. by rewrite <- Permutation_middle.
  - rewrite (assoc_L app).
    eapply NoDup_Permutation_proper; [|apply NoDup_cons; split; [exact Hn|exact Hnd]].
    by rewrite <- Permutation_cons_append.
Qed.

Lemma async_apply_tokens st st' op :
  (1 <= s_next_token st)%Z ->
  tokens_below st -> async_apply hint_is_render fneg zero junk st op = Some st' ->
  tokens_below st' /\
  (s_next_token st <= s_next_token st' <= s_next_token st + 1)%Z.
Proof.
  intros Hone (Hwo & Hwr & Hnd & Hall) Hop.
  rewrite queued_tokens_split in Hnd, Hall.
  unfold tokens_below. rewrite queued_tokens_split.
  destruct op as [script timeout hint|script priority hint|tok|recurring];
    cbn in Hop.
  - injection Hop as <-. unfold async_defer.
    destruct (s_onetime st) as [o|] eqn:Ho;
      cbn [snd s_onetime s_recurring s_next_token].
    + cbn in Hwo.
      destruct (push_tokens o
        (mk_job false false hint zero timeout (s_next_token st) script) Hwo)
        as [Hwf [Heq|Heq]]; unfold queue_tokens at 1 3;
        cbn [from_option queue_wf]; rewrite Heq;
        refine (conj (conj Hwf (conj Hwr (conj _ _))) _); try lia.
      * exact Hnd.
      * eapply forall_below; [|exact Hall]. lia.
      * by apply nodup_fresh.
      * apply Forall_app in Hall as [Ha Hb].
        apply Forall_app; split; [apply Forall_app; split|].
        -- eapply forall_below; [|exact Ha]. lia.
        -- apply Forall_singleton. cbn. lia.
        -- eapply forall_below; [|exact Hb]. lia.
    + rewrite Ho. refine (conj (conj Hwo (conj Hwr (conj Hnd Hall))) _). lia.
  - injection Hop as <-. unfold async_recur.
    destruct (s_recurring st) as [r|] eqn:Hr;
      cbn [snd s_onetime s_recurring s_next_token].
    + cbn in Hwr.
      destruct (push_tokens r
        (mk_job false false hint
           (if hint_is_render hint then fneg priority else priority) 0
           (s_next_token st) script) Hwr)
        as [Hwf [Heq|Heq]]; unfold queue_tokens at 2 4;
        cbn [from_option queue_wf]; rewrite Heq;
        refine (conj (conj Hwo (conj Hwf (conj _ _))) _); try lia.
      * exact Hnd.
      * eapply forall_below; [|exact Hall]. lia.
      * by apply nodup_fresh.
      * apply Forall_app in Hall as [Ha Hb].
        apply Forall_app; split; [|apply Forall_app; split].
        -- eapply forall_below; [|exact Ha]. lia.
        -- eapply forall_below; [|exact Hb]. lia.
        -- apply Forall_singleton. cbn. lia.
    + rewrite Hr. refine (conj (conj Hwo (conj Hwr (conj Hnd Hall))) _). lia.
  - unfold async_cancel in Hop.
    destruct (s_onetime st) as [o|] eqn:Ho; [|done].
    destruct (s_recurring st) as [r|] eqn:Hr; [|done].
    injection Hop as <-. cbn [s_onetime s_recurring s_next_token].
    set (mark := fun j : job_t script_t async_hint_t double =>
                   if (token j =? tok)%Z then finish j else j).
    assert (Hmark : forall j, token (mark j) = token j).
    { intros j. unfold mark. by destruct (token j =? tok)%Z. }
    destruct (each_job_tokens mark (Some o) Hmark Hwo) as [Hto Hwo'].
    destruct (each_job_tokens mark (Some r) Hmark Hwr) as [Htr Hwr'].
    cbn [fmap option_fmap option_map] in Hto, Htr, Hwo', Hwr'.
    rewrite Hto, Htr.
    refine (conj (conj Hwo' (conj Hwr' (conj Hnd Hall))) _). lia.
  - unfold async_cancel_all in Hop.
    destruct (s_onetime st) as [o|] eqn:Ho; [|done].
    assert (Hfin : forall j, token (finish j) = token j) by done.
    destruct (each_job_tokens finish (Some o) Hfin Hwo) as [Hto Hwo'].
    cbn [fmap option_fmap option_map] in Hto, Hwo'.
    destruct recurring.
    + destruct (s_recurring st) as [r|] eqn:Hr; [|done].
      injection Hop as <-. cbn [s_onetime s_recurring s_next_token].
      destruct (each_job_tokens finish (Some r) Hfin Hwr) as [Htr Hwr'].
      cbn [fmap option_fmap option_map] in Htr, Hwr'.
      rewrite Hto, Htr.
      refine (conj (conj Hwo' (conj Hwr' (conj Hnd Hall))) _). lia.
    + injection Hop as <-. cbn [s_onetime s_recurring s_next_token].
      rewrite Hto.
      refine (conj (conj Hwo' (conj Hwr (conj Hnd Hall))) _). lia.
Qed.

Lemma async_run_tokens ops st st' :
  (1 <= s_next_token st)%Z -> tokens_below st ->
  async_run hint_is_render fneg zero junk st ops = Some st' ->
  tokens_below st' /\
  (1 <= s_next_token st' <= s_next_token st + Z.of_nat (length ops))%Z.
Proof.
  revert st. induction ops as [|op ops IH]; intros st Hone Hinv Hrun; cbn in Hrun.
  - injection Hrun as <-. split; [done|]. cbn. lia.
  - destruct (async_apply hint_is_render fneg zero junk st op) as [st1|] eqn:Hop;
      [|done].
    destruct (async_apply_tokens st st1 op Hone Hinv Hop) as [Hinv1 Hnext].
    assert (Hone1 : (1 <= s_next_token st1)%Z) by lia.
    destruct (IH st1 Hone1 Hinv1 Hrun) as [Hinv' Hnext'].
    split; [done|]. cbn [length]. lia.
Qed.

(** X26: after [async_init] and any run of
    [async_defer], [async_recur], [async_cancel] and [async_cancel_all]
    that is short enough for the [int64_t] counter, the jobs in the two
    queues carry pairwise distinct tokens, each of them at least 1 and
    below the next token to hand out, and the counter has not passed
    the largest [int64_t]: so a token names at most one queued job, and
    0, which [async_defer] and [async_recur] return without a queue,
    names none. *)
Theorem async_tokens_stay_distinct ops st :
  (Z.of_nat (length ops) < 2 ^ 63 - 1)%Z ->
  async_run hint_is_render fneg zero junk (async_init junk async_start) ops
    = Some st ->
  NoDup (queued_tokens st) /\
  Forall (fun t => 1 <= t < s_next_token st)%Z (queued_tokens st) /\
  (s_next_token st <= 2 ^ 63 - 1)%Z.
Proof.
  intros Hroom Hrun.
  assert (Hone : (1 <= s_next_token (async_init junk async_start))%Z)
    by (cbn; lia).
  destruct (async_run_tokens ops _ st Hone tokens_below_start Hrun)
    as [(_ & _ & Hnd & Hall) Hnext].
  cbn in Hnext. repeat split; try done. lia.
Qed.

End AsyncFacts.

Lemma async_tokens_stay_distinct_witness :
  exists st,
    @Async.async_run Examples.reliable string bool Z id Z.opp 0%Z
      Examples.no_job
      (@Async.async_init Examples.reliable string bool Z Examples.no_job
         Async.async_start) Examples.job_calls = Some st /\
    Async.queued_tokens st = [1; 3; 2]%Z /\
    NoDup (Async.queued_tokens st).
Proof.
  destruct (@Async.async_run Examples.reliable string bool Z id Z.opp 0%Z
              Examples.no_job
              (@Async.async_init Examples.reliable string bool Z
                 Examples.no_job Async.async_start) Examples.job_calls)
    as [st|] eqn:Hrun.
  2: { vm_compute in Hrun. discriminate Hrun. }
  exists st. split; [reflexivity|]. split.
  - vm_compute in Hrun. injection Hrun as <-. reflexivity.
  - apply (@async_tokens_stay_distinct Examples.reliable string bool Z id
             Z.opp 0%Z Examples.no_job Examples.job_calls st).
    + vm_compute. reflexivity.
    + exact Hrun.
Defined.
